(** * datasets-organelle-igr: the BRMS preparation pipeline and the IGS summary

  A shallow embedding of [scripts/brms.py] (tree reconciliation against the
  NCBI taxonomy, left join of the IGS summary with the sample metadata,
  derived columns) and of [scripts/summary_igs.py] (per-sample record
  extraction and the fan-out/fan-in aggregation), with the properties the
  specification states about them. *)

From Stdlib Require Import ZArith Lia String Ascii List DecimalString DecimalZ DecimalPos.
From Stdlib Require OrderedTypeEx QArith Qcanon.
From stdpp Require Import gmap strings list sorting.

Local Open Scope list_scope.

(** ** Python and Polars values *)

Module Py.

(** [str(n)] on a Python integer: its decimal numeral. *)
Definition str (z : Z) : string := NilZero.string_of_int (Z.to_int z).

(** [int(s)] on a decimal numeral; [None] stands for [ValueError]. *)
Definition int (s : string) : option Z := Z.of_int <$> NilZero.int_of_string s.

(** What a call can end in: a value, [sys.exit(code)] or an uncaught
    exception. *)
Inductive res (A : Type) : Type :=
| Ret (a : A)
| SysExit (code : Z)
| Raise (exc : string).
Global Arguments Ret {A} a.
Global Arguments SysExit {A} code.
Global Arguments Raise {A} exc.

(** Comparison of [str] values: by code point, position by position. *)
Definition str_leb (a b : string) : bool :=
  match String.compare a b with Gt => false | _ => true end.

End Py.

Module Polars.

(** A [Float64]. A finite float is given by the rational it denotes; a
    base-10 logarithm is kept symbolic: [Fin d q] is [log10] taken [d] times
    of the finite float [q], itself finite. *)
Inductive float64 : Type :=
| NaN
| Inf (negative : bool)
| Fin (d : nat) (q : Qcanon.Qc).

Global Instance Qc_eq_dec : EqDecision Qcanon.Qc := Qcanon.Qc_eq_dec.

Global Instance float64_eq_dec : EqDecision float64.
Proof. solve_decision. Defined.

(** A cell of a frame; [None] is Polars' null. *)
Inductive value : Type :=
| VInt (z : Z)
| VStr (s : string)
| VFloat (x : float64).

Global Instance value_eq_dec : EqDecision value.
Proof. solve_decision. Defined.

Abbreviation Series := (list (option value)).

(** A frame: its columns in order, each with its name. *)
Abbreviation DataFrame := (list (string * Series)).

Definition columns (df : DataFrame) : list string := df.*1.

Fixpoint column (name : string) (df : DataFrame) : option Series :=
  match df with
  | [] => None
  | (n, s) :: rest => if decide (n = name) then Some s else column name rest
  end.

Definition height (df : DataFrame) : nat :=
  match df with
  | [] => 0
  | (_, s) :: _ => length s
  end.

(** [df.drop(name)] *)
Definition drop (name : string) (df : DataFrame) : DataFrame :=
  filter (λ c, c.1 ≠ name) df.

(** [df.with_columns(expr.alias(name))]: a column of that name is replaced
    where it stands, a new name is appended. *)
Fixpoint with_column (name : string) (s : Series) (df : DataFrame) : DataFrame :=
  match df with
  | [] => [(name, s)]
  | (n, s0) :: rest =>
      if decide (n = name) then (n, s) :: rest
      else (n, s0) :: with_column name s rest
  end.

(** An [Int64] column without nulls, as a list of integers. *)
Definition ints (s : Series) : option (list Z) :=
  mapM (λ c, match c with Some (VInt z) => Some z | _ => None end) s.

Definition of_ints (l : list Z) : Series := (λ z, Some (VInt z)) <$> l.

(** [col.replace_strict(mapping, default=col)] on an integer column. *)
Definition replace_strict (mapping : gmap Z Z) (l : list Z) : list Z :=
  (λ z, default z (mapping !! z)) <$> l.

(** [col.replace(mapping)] on one cell: values outside the mapping stay. *)
Definition replace_cell (mapping : list (string * string)) (c : option value)
  : option value :=
  match c with
  | Some (VStr s) =>
      match list_find (λ kv, kv.1 = s) mapping with
      | Some (_, (_, v)) => Some (VStr v)
      | None => c
      end
  | _ => c
  end.

(** The nearest float to a 64-bit integer, ties to even: the cast of an
    [Int64] cell to [Float64]. Integers of up to 53 bits are exact. *)
Definition round53 (z : Z) : Z :=
  let a := Z.abs z in
  if decide (a < 2 ^ 53)%Z then z else
    let e := (Z.log2 a - 52)%Z in
    let m := Z.shiftr a e in
    let r := Z.land a (Z.ones e) in
    let h := Z.shiftl 1 (e - 1) in
    let m' := if decide (h < r ∨ r = h ∧ Z.odd m = true)%Z then (m + 1)%Z else m in
    (Z.sgn z * Z.shiftl m' e)%Z.

Definition of_Z (z : Z) : Qcanon.Qc := Qcanon.Q2Qc (QArith_base.inject_Z z).

Definition to_float (z : Z) : float64 := Fin 0 (of_Z (round53 z)).

(** [log10] taken [d] times is negative below [tower d] and zero at it. *)
Fixpoint tower (d : nat) : Z :=
  match d with
  | O => 0
  | S d => 10 ^ tower d
  end.

(** The base-10 logarithm of a float: [NaN] below zero, minus infinity at
    zero. *)
Definition log10 (x : float64) : float64 :=
  match x with
  | NaN => NaN
  | Inf true => NaN
  | Inf false => Inf false
  | Fin d q =>
      match Qcanon.Qccompare q (of_Z (tower d)) with
      | Lt => NaN
      | Eq => Inf true
      | Gt => Fin (S d) q
      end
  end.

(** [col.log10()] on one cell: an integer is cast to a float first, a null
    stays null; [None] when the cell is a string. *)
Definition log10_cell (c : option value) : option (option value) :=
  match c with
  | None => Some None
  | Some (VInt z) => Some (Some (VFloat (log10 (to_float z))))
  | Some (VFloat x) => Some (Some (VFloat (log10 x)))
  | Some (VStr _) => None
  end.

(** Row [oi] of a column; a row that is not there reads as null. *)
Definition take (s : Series) (oi : option nat) : option value :=
  i ← oi; mjoin (s !! i).

(** Rows of the right key column that match a left key. Null keys never
    match. *)
Definition matches (rk : Series) (k : option value) : list nat :=
  match k with
  | None => []
  | Some v => (λ jc, jc.1) <$> filter (λ jc, jc.2 = Some v) (imap pair rk)
  end.

(** The row pairs of a left join: every left row once per matching right
    row, and once with no partner when nothing matches. *)
Definition partners (rk : Series) (ik : nat * option value)
  : list (nat * option nat) :=
  match matches rk ik.2 with
  | [] => [(ik.1, None)]
  | js => (λ j, (ik.1, Some j)) <$> js
  end.

Definition join_rows (lk rk : Series) : list (nat * option nat) :=
  imap pair lk ≫= partners rk.

(** The name a right column gets in the joined frame. *)
Definition right_name (left : DataFrame) (n : string) : string :=
  if decide (n ∈ columns left) then n +:+ "_right" else n.

(** [left.join(right, on=key, how="left")]; the right key column is
    coalesced into the left one. *)
Definition join_left (key : string) (left right : DataFrame)
  : Py.res DataFrame :=
  match column key left, column key right with
  | Some lk, Some rk =>
      let rows := join_rows lk rk in
      let lcols := (λ c, (c.1, (λ r, take c.2 (Some r.1)) <$> rows)) <$> left in
      let rcols :=
        (λ c, (right_name left c.1, (λ r : nat * option nat, take c.2 r.2) <$> rows))
          <$> drop key right in
      if decide (NoDup (columns (lcols ++ rcols)))
      then Py.Ret (lcols ++ rcols)
      else Py.Raise "DuplicateError"
  | _, _ => Py.Raise "ColumnNotFoundError"
  end.

(** Order of floats in an ascending sort: minus infinity, the finite
    floats, plus infinity, then [NaN]. Finite floats compare as the
    rationals they denote, logarithms of the same depth as their arguments
    do; a column holds floats of one depth, and across depths the lower
    depth comes first. *)
Definition float_leb (x y : float64) : bool :=
  match x, y with
  | _, NaN => true
  | NaN, _ => false
  | Inf true, _ => true
  | _, Inf true => false
  | _, Inf false => true
  | Inf false, _ => false
  | Fin d q, Fin e r =>
      if decide (d = e) then QArith_base.Qle_bool (Qcanon.this q) (Qcanon.this r)
      else bool_decide (d < e)
  end.

(** Order of cells in an ascending sort, nulls first. *)
Definition value_leb (a b : value) : bool :=
  match a, b with
  | VInt x, VInt y => bool_decide (x ≤ y)%Z
  | VInt _, _ => true
  | VStr _, VInt _ => false
  | VStr x, VStr y => Py.str_leb x y
  | VStr _, VFloat _ => true
  | VFloat x, VFloat y => float_leb x y
  | VFloat _, _ => false
  end.

Definition cell_leb (a b : option value) : bool :=
  match a, b with
  | None, _ => true
  | Some _, None => false
  | Some x, Some y => value_leb x y
  end.

(** Rows [i] and [j] compared on two key columns, the first one leading. *)
Definition rows_leb (k1 k2 : Series) (i j : nat) : bool :=
  let a := take k1 (Some i) in
  let b := take k1 (Some j) in
  if cell_leb a b then (if cell_leb b a then cell_leb (take k2 (Some i)) (take k2 (Some j)) else true)
  else false.

Definition rows_le (k1 k2 : Series) : relation nat :=
  λ i j, rows_leb k1 k2 i j = true.

Global Instance rows_le_dec k1 k2 : RelDecision (rows_le k1 k2).
Proof. intros i j. unfold rows_le. apply _. Defined.

(** [df.sort([by1, by2], descending=[False, False])] *)
Definition sort2 (by1 by2 : string) (df : DataFrame) : Py.res DataFrame :=
  match column by1 df, column by2 df with
  | Some k1, Some k2 =>
      let idx := merge_sort (rows_le k1 k2) (seq 0 (height df)) in
      Py.Ret ((λ c, (c.1, (λ i, take c.2 (Some i)) <$> idx)) <$> df)
  | _, _ => Py.Raise "ColumnNotFoundError"
  end.

End Polars.

(** ** The taxonomy gateway (ete4) *)

Module Ete.

(** A tree by its topology: node names and children. Branch lengths are not
    represented, so [to_ultrametric], which only rescales them, leaves the
    tree as it is. *)
#[warnings="-register-all"]
Inductive Tree : Type :=
| Node (name : string) (children : list Tree).

(** [tree.leaves()], by name; a node without children is a leaf. *)
Fixpoint leaves (t : Tree) : list string :=
  match t with
  | Node n [] => [n]
  | Node _ cs => flat_map leaves cs
  end.

Definition to_ultrametric (t : Tree) : Tree := t.

(** An [NCBITaxa] instance: the rows [(taxid, parent)] of the [species] table
    of its database, and the tree it builds for a column of taxids. *)
Record NCBITaxa : Type := {
  species : list (Z * Z);
  get_topology : list Z → Tree;
}.

End Ete.

(** ** scripts/brms.py *)

Module Brms.
Import Py Polars Ete.

Inductive level : Type := DEBUG | INFO | WARNING | ERROR.

(** What a run does to the outside, in order: log records (with the taxa a
    message lists), calls of the gateway, files written, the model run. *)
Inductive event : Type :=
| Log (lv : level) (msg : string) (taxa : gset string)
| UpdateTaxonomyDatabase
| GetTopology (taxids : list Z)
| FirstDescendants (taxids : gset Z)
| TreeWrite (t : Tree)
| SinkCsv (df : DataFrame)
| Subprocess (t : Tree) (df : DataFrame)
| WriteErrFile.

(** A computation that appends to the trace and ends as [res] says. *)
Definition M (A : Type) : Type := list event → list event * res A.

Global Instance M_ret : MRet M := λ A a tr, (tr, Ret a).

Global Instance M_bind : MBind M := λ A B f m tr,
  match m tr with
  | (tr', Ret a) => f a tr'
  | (tr', SysExit c) => (tr', SysExit c)
  | (tr', Raise e) => (tr', Raise e)
  end.

Definition emit (e : event) : M unit := λ tr, (tr ++ [e], Ret tt).
Definition log (lv : level) (msg : string) : M unit := emit (Log lv msg ∅).
Definition sys_exit {A} (code : Z) : M A := λ tr, (tr, SysExit code).
Definition lift {A} (r : res A) : M A := λ tr, (tr, r).
Definition when (b : bool) (m : M unit) : M unit := if b then m else mret tt.

(** The database and the model runner a run finds: [NCBITaxa()] as it
    opens, and as it is after [update_taxonomy_database()]; the exit status
    of the R script on a tree and a table. *)
Record Env : Type := {
  ncbi_local : NCBITaxa;
  ncbi_updated : NCBITaxa;
  Rscript : Tree → DataFrame → Z;
}.

(** The rows of [species] below [parent]. *)
Definition children (ncbi : NCBITaxa) (parent : Z) : list Z :=
  (λ r, r.1) <$> filter (λ r, r.2 = parent) (species ncbi).

(** [SELECT parent, MIN(taxid) FROM species WHERE parent IN (taxids)
    GROUP BY parent], as a dict. *)
Definition get_first_descendants (ncbi : NCBITaxa) (taxids : gset Z) : gmap Z Z :=
  foldr
    (λ r acc,
       if decide (r.2 ∈ taxids)
       then <[r.2 := match acc !! r.2 with
                      | Some m => Z.min r.1 m
                      | None => r.1
                      end]> acc
       else acc)
    ∅ (species ncbi).

Definition validade_tree (tree : Tree) (taxa : gset string)
  : M (gset string * gset string) :=
  let tree_taxa : gset string := list_to_set (leaves tree) in
  let missing_in_tree := taxa ∖ tree_taxa in
  let extra_in_tree := tree_taxa ∖ taxa in
  when (bool_decide (missing_in_tree ≠ ∅))
    (emit (Log WARNING "Taxa missing in tree" missing_in_tree));;
  when (bool_decide (extra_in_tree ≠ ∅))
    (emit (Log ERROR "Extra taxa in tree" extra_in_tree));;
  mret (missing_in_tree, extra_in_tree).

(** [tsv[name]] handed to the gateway, which reads every taxid with
    [int()]: a column with a null or a cell that is not an integer raises
    there. *)
Definition taxid_column (name : string) (df : DataFrame) : M (list Z) :=
  match column name df with
  | None => lift (Raise "ColumnNotFoundError")
  | Some s =>
      match ints s with
      | Some l => mret l
      | None => lift (Raise "ValueError")
      end
  end.

(** [ncbi.get_topology(col)] followed by [tree.to_ultrametric()]. *)
Definition topology (ncbi : NCBITaxa) (taxids : list Z) : M Tree :=
  emit (GetTopology taxids);;
  mret (to_ultrametric (get_topology ncbi taxids)).

(** [set(col.cast(pl.String))] *)
Definition taxa_of (taxids : list Z) : gset string := list_to_set (str <$> taxids).

(** [{int(x) for x in missing}] *)
Definition to_int_set (missing : gset string) : M (gset Z) :=
  match mapM int (elements missing) with
  | Some l => mret (list_to_set l)
  | None => lift (Raise "ValueError")
  end.

Definition required_columns : list string :=
  ["ncbi_taxid"; "Species"; "ncbi_name"; "Genome_length"].

Definition polarity_mapping : list (string * string) :=
  [("++", "same"); ("--", "same"); ("+-", "opposite"); ("-+", "opposite")].

(** Lines 189-203: the join of the IGS summary with the metadata, the two
    derived columns and the sort. *)
Definition join_and_derive (igs tsv : DataFrame) (an_column : string)
  : res DataFrame :=
  match join_left an_column igs tsv with
  | Ret igs =>
      match column "Polarity" igs, column "Length" igs with
      | Some polarity, Some len =>
          match mapM log10_cell len with
          | Some log10_length =>
              let igs := with_column "polarity_bin"
                           (replace_cell polarity_mapping <$> polarity) igs in
              let igs := with_column "log10_length" log10_length igs in
              sort2 an_column "ID" igs
          | None => Raise "InvalidOperationError"
          end
      | _, _ => Raise "ColumnNotFoundError"
      end
  | SysExit c => SysExit c
  | Raise e => Raise e
  end.

(** One substitution round (lines 127-142 and 152-167): the first
    descendants of the missing taxa replace them in column [src], the result
    is written to [taxon_tree], and the tree is built and, after the log
    line [msg], validated again. *)
Definition substitute (ncbi : NCBITaxa) (src : string) (tsv : DataFrame)
    (missing_in_tree : gset string) (msg : string)
  : M (DataFrame * Tree * gset string) :=
  missing_int ← to_int_set missing_in_tree;
  emit (FirstDescendants missing_int);;
  let descendants := get_first_descendants ncbi missing_int in
  col ← taxid_column src tsv;
  let tsv := with_column "taxon_tree" (of_ints (replace_strict descendants col)) tsv in
  taxon_tree ← taxid_column "taxon_tree" tsv;
  tree ← topology ncbi taxon_tree;
  log INFO msg;;
  v ← validade_tree tree (taxa_of taxon_tree);
  mret (tsv, tree, v.1).

(** Lines 111-185: the tree for the taxids of the table, its validation and
    up to two substitution rounds. Returns the table and the tree that
    [run_single] goes on with. *)
Definition reconcile (ncbi : NCBITaxa) (tsv : DataFrame) : M (DataFrame * Tree) :=
  log INFO "Creating ultrametric tree for BRMS...";;
  ncbi_taxid ← taxid_column "ncbi_taxid" tsv;
  tree ← topology ncbi ncbi_taxid;
  log INFO "Tree created, now validating it...";;
  v ← validade_tree tree (taxa_of ncbi_taxid);
  let missing_in_tree := v.1 in
  let extra_in_tree := v.2 in
  tsv ← (if bool_decide (missing_in_tree = ∅) && bool_decide (extra_in_tree = ∅)
         then log INFO "Tree validation successful: all taxa match.";;
              mret (with_column "taxon_tree" (of_ints ncbi_taxid) tsv)
         else mret tsv);
  if bool_decide (missing_in_tree ≠ ∅) then
    log INFO "Replacing missing taxa with first descendant...";;
    r1 ← substitute ncbi "ncbi_taxid" tsv missing_in_tree
           "Re-validation of the tree after replacement...";
    let missing_in_tree2 := r1.2 in
    if bool_decide (missing_in_tree2 ≠ ∅) then
      log WARNING "Some taxa are still missing in the tree after replacement, going for second round.";;
      emit (Log DEBUG "Missing taxa" missing_in_tree2);;
      r2 ← substitute ncbi "taxon_tree" r1.1.1 missing_in_tree2
             "Re-re-validation of the tree after replacement...";
      let missing_in_tree3 := r2.2 in
      if bool_decide (missing_in_tree3 ≠ ∅) then
        log ERROR "Some taxa are still missing in the tree after second replacement, we give up.";;
        emit (Log DEBUG "Missing taxa" missing_in_tree3);;
        sys_exit 1
      else
        log INFO "All missing taxa replaced successfully by their first descendant, first descendant.";;
        mret r2.1
    else
      log INFO "All missing taxa replaced successfully by their first descendant.";;
      mret r1.1
  else mret (tsv, tree).

(** Lines 187-232: the tree is written, the table is joined, derived,
    sorted and written, and the model is fitted. *)
Definition fit (env : Env) (tree : Tree) (tsv igs : DataFrame)
    (an_column : string) : M unit :=
  emit (TreeWrite tree);;
  log INFO "Preparing IGS data for BRMS fitting...";;
  igs ← lift (join_and_derive igs tsv an_column);
  emit (SinkCsv igs);;
  log DEBUG "Running command";;
  log INFO "Fitting BRMS model";;
  emit (Subprocess tree igs);;
  if bool_decide (Rscript env tree igs = 0%Z) then
    log INFO "BRMS model fitting completed successfully."
  else
    log ERROR "Error in brms fit";;
    emit WriteErrFile;;
    sys_exit 1.

(** Lines 99-100. *)
Definition drop_gi (tsv : DataFrame) : DataFrame :=
  if bool_decide ("GI" ∈ columns tsv) then drop "GI" tsv else tsv.

Definition run_single (env : Env) (tsv igs : DataFrame) (an_column : string)
    (update_taxa : bool) : M unit :=
  if negb (bool_decide (required_columns ⊆ columns tsv)) then
    log ERROR "TSV file is missing required columns";;
    sys_exit 1
  else
    let tsv := drop_gi tsv in
    when update_taxa
      (log INFO "Updating NCBI taxonomy database...";;
       emit UpdateTaxonomyDatabase);;
    let ncbi := if update_taxa then ncbi_updated env else ncbi_local env in
    r ← reconcile ncbi tsv;
    fit env r.2 r.1 igs an_column.

(** *** Notions the properties are stated with *)

(** The tree a run gets for a column of taxids. *)
Definition tree_of (ncbi : NCBITaxa) (taxids : list Z) : Tree :=
  to_ultrametric (get_topology ncbi taxids).

(** The taxa of a column that are not leaves of its tree, and the leaves
    that are not taxa of the column: what [validade_tree] returns for the
    tree of [taxids]. *)
Definition missing_in (ncbi : NCBITaxa) (taxids : list Z) : gset string :=
  taxa_of taxids ∖ list_to_set (leaves (tree_of ncbi taxids)).

Definition extra_in (ncbi : NCBITaxa) (taxids : list Z) : gset string :=
  list_to_set (leaves (tree_of ncbi taxids)) ∖ taxa_of taxids.

(** The parents a substitution round asks descendants for. *)
Definition missing_ints (ncbi : NCBITaxa) (taxids : list Z) : gset Z :=
  list_to_set (omap int (elements (missing_in ncbi taxids))).

(** The column after one substitution round. *)
Definition substituted (ncbi : NCBITaxa) (taxids : list Z) : list Z :=
  replace_strict (get_first_descendants ncbi (missing_ints ncbi taxids)) taxids.

(** What validating the tree of [taxids] logs. *)
Definition validation_log (ncbi : NCBITaxa) (taxids : list Z) : list event :=
  (if bool_decide (missing_in ncbi taxids ≠ ∅)
   then [Log WARNING "Taxa missing in tree" (missing_in ncbi taxids)] else [])
  ++ (if bool_decide (extra_in ncbi taxids ≠ ∅)
      then [Log ERROR "Extra taxa in tree" (extra_in ncbi taxids)] else []).

(** What a run logs before it builds the first tree. *)
Definition update_log (update_taxa : bool) : list event :=
  if update_taxa
  then [Log INFO "Updating NCBI taxonomy database..." ∅; UpdateTaxonomyDatabase]
  else [].

(** [MIN] over a group of rows; none for the empty group. *)
Definition min_taxid (group : list Z) : option Z :=
  foldr (λ x acc, Some (match acc with Some m => Z.min x m | None => x end))
    None group.

(** The trees built, the descendant queries made and the trees written
    during a run, read off its trace. *)
Definition topologies (tr : list event) : list (list Z) :=
  omap (λ e, match e with GetTopology l => Some l | _ => None end) tr.

Definition descendant_queries (tr : list event) : list (gset Z) :=
  omap (λ e, match e with FirstDescendants s => Some s | _ => None end) tr.

Definition trees_written (tr : list event) : list Tree :=
  omap (λ e, match e with TreeWrite t => Some t | _ => None end) tr.

(** The tables written during a run, read off its trace. *)
Definition tables_written (tr : list event) : list DataFrame :=
  omap (λ e, match e with SinkCsv t => Some t | _ => None end) tr.

(** A computation that writes neither a tree nor a table, however it
    ends. *)
Definition quiet {A} (m : M A) : Prop :=
  ∀ tr, trees_written (m tr).1 = trees_written tr ∧
        tables_written (m tr).1 = tables_written tr.

End Brms.

(** ** scripts/summary_igs.py *)

Module SummaryIgs.
Import Py.

(** Arithmetic of an [int64] column: the result wraps around. *)
Definition wrap64 (z : Z) : Z := ((z + 2 ^ 63) mod 2 ^ 64 - 2 ^ 63)%Z.

Definition int64 (z : Z) : Prop := (- 2 ^ 63 ≤ z < 2 ^ 63)%Z.

(** The columns of a GFF3 line that [read_csv] keeps. *)
Record GffRow : Type := {
  type : string;
  start : Z;
  end_ : Z;
  attributes : string;
}.

(** The patterns of [tigre.clean]: the first group of the first match in
    the attributes, if there is one. *)
Record TigreClean : Type := {
  _RE_name_up : string → option string;
  _RE_name_dw : string → option string;
  _RE_source_up : string → option string;
  _RE_source_dw : string → option string;
}.

Fixpoint until_semicolon (s : string) : string :=
  match s with
  | EmptyString => EmptyString
  | String c r =>
      if Ascii.eqb c ";" then EmptyString else String c (until_semicolon r)
  end.

(** [ID=([^;]+)], searched from the left. *)
Fixpoint _RE_ID (s : string) : option string :=
  match s with
  | EmptyString => None
  | String c r =>
      match s with
      | String "I" (String "D" (String "=" g)) =>
          match until_semicolon g with
          | EmptyString => _RE_ID r
          | m => Some m
          end
      | _ => _RE_ID r
      end
  end.

(** [\|([+-])\|], searched from the left. *)
Fixpoint _RE_strand (s : string) : option string :=
  match s with
  | EmptyString => None
  | String c r =>
      match s with
      | String "|" (String x (String "|" _)) =>
          if Ascii.eqb x "+" || Ascii.eqb x "-"
          then Some (String x EmptyString)
          else _RE_strand r
      | _ => _RE_strand r
      end
  end.

(** One record of [df.to_dict(orient="records")]; [None] is NaN. *)
Record IgsRecord : Type := {
  ID : option string;
  AN : string;
  UP : string;
  DOWN : string;
  Pair : string;
  Polarity : string;
  Length : Z;
  Merged : Z;
  source_up : option string;
  source_dw : option string;
}.

Global Instance IgsRecord_eq_dec : EqDecision IgsRecord.
Proof. solve_decision. Defined.

(** [col.str.extract(_RE_strand).fillna("+")] on one cell. *)
Definition strand (source : option string) : string :=
  default "+" (source ≫= _RE_strand).

Definition summary_row (re : TigreClean) (an : string) (row : GffRow) : IgsRecord :=
  let up := default "RS" (_RE_name_up re (attributes row)) in
  let down := default "RE" (_RE_name_dw re (attributes row)) in
  let src_up := _RE_source_up re (attributes row) in
  let src_dw := _RE_source_dw re (attributes row) in
  {| ID := _RE_ID (attributes row);
     AN := an;
     UP := up;
     DOWN := down;
     Pair := up +:+ "-" +:+ down;
     Polarity := strand src_up +:+ strand src_dw;
     Length := wrap64 (wrap64 (end_ row - start row) + 1);
     Merged := if decide (type row = "intergenic_region") then 0 else 1;
     source_up := src_up;
     source_dw := src_dw |}.

Definition summary_igs (re : TigreClean) (an : string) (gff : list GffRow)
  : list IgsRecord :=
  summary_row re an <$> gff.

(** The order in which the futures of a pool complete: every future is
    yielded once, in an order the pool decides. *)
Record Executor : Type := {
  as_completed : list (list IgsRecord) → list (list IgsRecord);
  as_completed_perm : ∀ futures, as_completed futures ≡ₚ futures;
}.

(** Order of [sort_values]: NaN last. *)
Definition id_leb (a b : option string) : bool :=
  match a, b with
  | _, None => true
  | None, Some _ => false
  | Some x, Some y => str_leb x y
  end.

Definition record_leb (a b : IgsRecord) : bool :=
  if str_leb (AN a) (AN b)
  then (if str_leb (AN b) (AN a) then id_leb (ID a) (ID b) else true)
  else false.

Definition record_le : relation IgsRecord := λ a b, record_leb a b = true.

Global Instance record_le_dec : RelDecision record_le.
Proof. intros a b. unfold record_le. apply _. Defined.

Definition key (r : IgsRecord) : string * option string := (AN r, ID r).

(** [igs_multiple]: the table written to [output_file]. [ans] is the
    accession column of the TSV, [gff an] the lines of the file built for
    [an]. A pool of no workers and a frame without columns raise. *)
Definition igs_multiple (re : TigreClean) (gff : string → list GffRow)
    (ans : list string) (workers : Z) (executor : Executor)
  : res (list IgsRecord) :=
  if bool_decide (workers ≤ 0)%Z then Raise "ValueError"
  else
    let tasks := (λ an, summary_igs re an (gff an)) <$> ans in
    let all_records := mjoin (as_completed executor tasks) in
    match all_records with
    | [] => Raise "KeyError"
    | _ => Ret (merge_sort record_le all_records)
    end.

End SummaryIgs.

(** ** The command lines *)

Module Cli.
Import Py Polars Ete Brms SummaryIgs.

(** What the two [main] functions ask of the file system: whether a path is
    a file, whether it exists, and the table a TSV file holds. Paths are
    taken as resolved. *)
Record FileSystem : Type := {
  is_file : string → bool;
  exists_ : string → bool;
  read_csv : string → DataFrame;
}.

(** The namespace [argparse] hands to [main] of [brms.py]. *)
Record BrmsArgs : Type := {
  tsv : string;
  igs : string;
  output : string;
  an_column : string;
  update_taxa : bool;
  verbose : bool;
  overwrite : bool;
}.

(** [main] of [brms.py], lines 304-336. *)
Definition brms_main (env : Env) (fs : FileSystem) (args : BrmsArgs) : M unit :=
  if negb (is_file fs (tsv args)) then
    log ERROR "TSV input file does not exist or is not a file.";;
    sys_exit 1
  else if negb (is_file fs (igs args)) then
    log ERROR "IGS input file does not exist or is not a file.";;
    sys_exit 1
  else
    (if exists_ fs (output args) then
       if overwrite args then
         log WARNING "Output folder exists, overwriting as requested."
       else
         log ERROR "Output folder already exists. Use --overwrite to overwrite.";;
         sys_exit 1
     else mret tt);;
    run_single env (read_csv fs (tsv args)) (read_csv fs (igs args))
      (an_column args) (update_taxa args).

(** The namespace of [summary_igs.py]; [samples] is the accession column of
    the TSV file and [gff] the lines of the file built for an accession. *)
Record IgsArgs : Type := {
  igs_output : string;
  workers : Z;
  igs_overwrite : bool;
  samples : list string;
  gff : string → list GffRow;
}.

(** [main] of [summary_igs.py], lines 173-196. *)
Definition igs_main (re : TigreClean) (fs : FileSystem) (executor : Executor)
    (args : IgsArgs) : res (list IgsRecord) :=
  if exists_ fs (igs_output args) && negb (igs_overwrite args) then
    Raise "FileExistsError"
  else
    igs_multiple re (gff args) (samples args) (workers args) executor.

End Cli.

(** ** Sample inputs *)

Module Samples.
Import Py Polars Ete Brms SummaryIgs.

(** Patterns for annotation lines that name no neighbour: both names are
    absent, and the two source descriptors are the given ones on every
    line. *)
Definition tigre_fixed (up dw : option string) : TigreClean :=
  {| _RE_name_up := λ _, None;
     _RE_name_dw := λ _, None;
     _RE_source_up := λ _, up;
     _RE_source_dw := λ _, dw |}.

Definition gff_row (id : string) (s e : Z) : GffRow :=
  {| type := "intergenic_region"; start := s; end_ := e;
     attributes := "ID=" +:+ id +:+ ";" |}.

(** Two samples of three records each. *)
Definition gff_files (an : string) : list GffRow :=
  if decide (an = "NC_1") then
    [gff_row "igr_3" 100 199; gff_row "igr_1" 1 10; gff_row "igr_2" 20 30]
  else
    [gff_row "igr_2" 5 9; gff_row "igr_3" 50 60; gff_row "igr_1" 1 2].

(** A metadata table of two samples, and the IGS summary of three
    intergenic regions. *)
Definition tsv : DataFrame :=
  [("AN", [Some (VStr "NC_1"); Some (VStr "NC_2")]);
   ("GI", [Some (VInt 11); Some (VInt 12)]);
   ("ncbi_taxid", of_ints [100; 5]%Z);
   ("Species", [Some (VStr "a"); Some (VStr "b")]);
   ("ncbi_name", [Some (VStr "a"); Some (VStr "b")]);
   ("Genome_length", of_ints [1000; 2000]%Z)].


Definition igs : DataFrame :=
  [("ID", [Some (VStr "igr_2"); Some (VStr "igr_1"); Some (VStr "igr_1")]);
   ("AN", [Some (VStr "NC_1"); Some (VStr "NC_1"); Some (VStr "NC_3")]);
   ("Polarity", [Some (VStr "++"); Some (VStr "+-"); Some (VStr "-+")]);
   ("Length", of_ints [100; 10; 1]%Z)].

(** The IGS summary with its accession column named [GI]. *)
Definition igs_by_gi : DataFrame :=
  (λ c, (if decide (c.1 = "AN") then "GI" else c.1, c.2)) <$> igs.

(** A star tree over the taxids that are not in [inner], with the leaves
    [more] added. *)
Definition star (inner : list Z) (more : list string) (taxids : list Z) : Tree :=
  Node "1" ((λ n, Node n []) <$>
              ((str <$> filter (λ z, z ∉ inner) taxids) ++ more)).

Definition taxonomy : list (Z * Z) :=
  [(105, 100); (102, 100); (110, 100); (103, 102); (104, 103)]%Z.

(** Taxid 100 is an inner node; its first descendant 102 is a leaf. *)
Definition ncbi_shallow : NCBITaxa :=
  {| species := taxonomy; get_topology := star [100%Z] [] |}.

(** Taxids 100, 102 and 103 are inner nodes: two substitutions do not
    reach a leaf. *)
Definition ncbi_deep : NCBITaxa :=
  {| species := taxonomy; get_topology := star [100; 102; 103]%Z [] |}.

(** Every taxid is a leaf, and the tree has one leaf more. *)
Definition ncbi_extra : NCBITaxa :=
  {| species := taxonomy; get_topology := star [] ["999"] |}.

Definition env (ncbi : NCBITaxa) : Env :=
  {| ncbi_local := ncbi; ncbi_updated := ncbi; Rscript := λ _ _, 0%Z |}.

(** A pool that yields its futures in submission order, and one that
    yields them in reverse. *)
Definition in_order : Executor :=
  {| as_completed := λ futures, futures;
     as_completed_perm := λ futures, reflexivity futures |}.

Definition reversed : Executor :=
  {| as_completed := reverse;
     as_completed_perm := reverse_Permutation |}.

End Samples.

(** * Properties *)

(** ** Numerals and the order of strings *)

Section PyFacts.
Import Py.

Lemma int_str (z : Z) : int (str z) = Some z.
Proof.
  unfold int, str. rewrite NilZero.isi.
  - simpl. f_equal. apply DecimalZ.of_to.
  - destruct z; simpl; try discriminate.
    intros [= H]. by apply (Unsigned.to_uint_nonnil p).
  - destruct z; simpl; try discriminate.
    intros [= H]. by apply (Unsigned.to_uint_nonnil p).
Qed.

Global Instance str_inj : Inj (=) (=) str.
Proof.
  intros x y H. apply (f_equal int) in H.
  rewrite !int_str in H. congruence.
Qed.

Lemma str_leb_total (a b : string) : str_leb a b = true ∨ str_leb b a = true.
Proof.
  unfold str_leb. rewrite (String.compare_antisym a b).
  destruct (String.compare b a); simpl; auto.
Qed.

Lemma str_leb_antisym (a b : string) :
  str_leb a b = true → str_leb b a = true → a = b.
Proof.
  unfold str_leb. rewrite (String.compare_antisym a b).
  destruct (String.compare b a) eqn:E; simpl; try discriminate.
  intros _ _. symmetry. by apply String.compare_eq_iff.
Qed.

Lemma str_leb_trans (a b c : string) :
  str_leb a b = true → str_leb b c = true → str_leb a c = true.
Proof.
  unfold str_leb. intros Hab Hbc.
  destruct (String.compare a b) eqn:Eab; try discriminate;
    destruct (String.compare b c) eqn:Ebc; try discriminate.
  - apply String.compare_eq_iff in Eab as ->. by rewrite Ebc.
  - apply String.compare_eq_iff in Eab as ->. by rewrite Ebc.
  - apply String.compare_eq_iff in Ebc as <-. by rewrite Eab.
  - apply OrderedTypeEx.String_as_OT.cmp_lt in Eab, Ebc.
    pose proof (OrderedTypeEx.String_as_OT.lt_trans _ _ _ Eab Ebc) as Hac.
    apply OrderedTypeEx.String_as_OT.cmp_lt in Hac.
    unfold OrderedTypeEx.String_as_OT.cmp in Hac. by rewrite Hac.
Qed.

Lemma str_leb_refl (a : string) : str_leb a a = true.
Proof. by destruct (str_leb_total a a). Qed.

End PyFacts.

(** ** The record extractor and the aggregation *)

Section SummaryIgsFacts.
Import Py SummaryIgs.

Lemma wrap64_id (z : Z) : int64 z → wrap64 z = z.
Proof.
  unfold int64, wrap64. intros H.
  rewrite Z.mod_small; lia.
Qed.



Global Instance record_le_total : Total record_le.
Proof.
  intros a b. unfold record_le, record_leb.
  destruct (str_leb_total (AN a) (AN b)) as [H|H]; rewrite H.
  - destruct (str_leb (AN b) (AN a)) eqn:E; [|by left].
    destruct (ID a) as [x|], (ID b) as [y|]; simpl; auto.
    apply str_leb_total.
  - destruct (str_leb (AN a) (AN b)) eqn:E; [|by right].
    destruct (ID a) as [x|], (ID b) as [y|]; simpl; auto.
    apply str_leb_total.
Qed.

Lemma id_leb_trans a b c :
  id_leb a b = true → id_leb b c = true → id_leb a c = true.
Proof.
  destruct a, b, c; simpl; try done. apply str_leb_trans.
Qed.

Lemma id_leb_antisym a b :
  id_leb a b = true → id_leb b a = true → a = b.
Proof.
  destruct a, b; simpl; try done.
  intros H1 H2. f_equal. by apply str_leb_antisym.
Qed.

Global Instance record_le_trans : Transitive record_le.
Proof.
  intros a b c. unfold record_le, record_leb.
  destruct (str_leb (AN a) (AN b)) eqn:Eab; [|done].
  destruct (str_leb (AN b) (AN c)) eqn:Ebc; [|by destruct (str_leb (AN b) (AN a))].
  rewrite (str_leb_trans _ _ _ Eab Ebc).
  destruct (str_leb (AN c) (AN a)) eqn:Eca; [|done].
  rewrite (str_leb_trans _ _ _ Ebc Eca), (str_leb_trans _ _ _ Eca Eab).
  apply id_leb_trans.
Qed.

Lemma record_le_key (a b : IgsRecord) :
  record_le a b → record_le b a → key a = key b.
Proof.
  unfold record_le, record_leb, key.
  destruct (str_leb (AN a) (AN b)) eqn:Eab; [|done].
  destruct (str_leb (AN b) (AN a)) eqn:Eba; [|done].
  intros H1 H2. f_equal; [by apply str_leb_antisym|by apply id_leb_antisym].
Qed.

Lemma NoDup_key_inj (l : list IgsRecord) (a b : IgsRecord) :
  NoDup (key <$> l) → a ∈ l → b ∈ l → key a = key b → a = b.
Proof.
  induction l as [|x l IH]; simpl; intros Hnd Ha Hb Hk.
  { by apply elem_of_nil in Ha. }
  apply NoDup_cons in Hnd as [Hx Hnd].
  apply elem_of_cons in Ha as [->|Ha]; apply elem_of_cons in Hb as [->|Hb]; auto.
  - exfalso. apply Hx. rewrite Hk. by apply list_elem_of_fmap_2.
  - exfalso. apply Hx. rewrite <- Hk. by apply list_elem_of_fmap_2.
Qed.

(** Sorting by (AN, ID) forgets the order of a table without duplicate
    keys. *)
Lemma merge_sort_order_independent (l1 l2 : list IgsRecord) :
  l1 ≡ₚ l2 → NoDup (key <$> l1) →
  merge_sort record_le l1 = merge_sort record_le l2.
Proof.
  intros Hp Hnd.
  apply (StronglySorted_unique_strong record_le).
  - intros x1 x2 H1 H2 Hle Hge.
    rewrite merge_sort_Permutation in H1, H2.
    rewrite <- Hp in H2.
    eapply NoDup_key_inj; eauto using record_le_key.
  - apply StronglySorted_merge_sort; apply _.
  - apply StronglySorted_merge_sort; apply _.
  - by rewrite !merge_sort_Permutation.
Qed.

End SummaryIgsFacts.

Section SummaryIgsClaims.
Import Py SummaryIgs.

(** C6: the length of every extracted record is [end - start + 1], both
    endpoints counted, for the coordinates of a GFF3 line (positive, within
    the 64-bit integers of the column); a record with start 100 and end 199
    has length 100. *)
Theorem length_inclusive (re : TigreClean) (an : string) (gff : list GffRow)
    (i : nat) (row : GffRow) :
  gff !! i = Some row →
  (1 ≤ start row < 2 ^ 63)%Z → (1 ≤ end_ row < 2 ^ 63)%Z →
  Length <$> summary_igs re an gff !! i = Some (end_ row - start row + 1)%Z.
Proof.
  intros Hi Hs He. unfold summary_igs.
  rewrite list_lookup_fmap, Hi. simpl. f_equal.
  rewrite (wrap64_id (end_ row - start row)) by (unfold int64; lia).
  apply wrap64_id. unfold int64. lia.
Qed.

Lemma length_inclusive_witness :
  Length <$> summary_igs (Samples.tigre_fixed None None) "NC_1"
               (Samples.gff_files "NC_1") !! 0 = Some 100%Z.
Proof.
  apply (length_inclusive _ "NC_1" (Samples.gff_files "NC_1") 0
           (Samples.gff_row "igr_3" 100 199)).
  - reflexivity.
  - simpl. lia.
  - simpl. lia.
Defined.

(** C4: when no two records share their (AN, ID) pair, the table that
    [igs_multiple] writes is the same whatever the order in which the tasks
    complete and whatever the number of workers: the records, concatenated
    in completion order, are sorted by (AN, ID) ascending. Two runs end the
    same way; when there is a record at all, both return one and the same
    table, which holds the records of all samples, sorted. *)
Theorem aggregation_order_independent (re : TigreClean)
    (gff : string → list GffRow) (ans : list string) (w1 w2 : Z)
    (e1 e2 : Executor) :
  (0 < w1)%Z → (0 < w2)%Z →
  NoDup (key <$> mjoin ((λ an, summary_igs re an (gff an)) <$> ans)) →
  igs_multiple re gff ans w1 e1 = igs_multiple re gff ans w2 e2 ∧
  (∀ table, igs_multiple re gff ans w1 e1 = Ret table →
     Sorted record_le table ∧
     table ≡ₚ mjoin (as_completed e1 ((λ an, summary_igs re an (gff an)) <$> ans))) ∧
  (mjoin ((λ an, summary_igs re an (gff an)) <$> ans) ≠ [] →
   ∃ table, igs_multiple re gff ans w1 e1 = Ret table ∧
            igs_multiple re gff ans w2 e2 = Ret table ∧
            Sorted record_le table ∧
            table ≡ₚ mjoin ((λ an, summary_igs re an (gff an)) <$> ans)).
Proof.
  intros Hw1 Hw2 Hnd. unfold igs_multiple.
  rewrite !bool_decide_eq_false_2 by lia.
  set (tasks := (λ an, summary_igs re an (gff an)) <$> ans) in *.
  assert (Hp1 : mjoin (as_completed e1 tasks) ≡ₚ mjoin tasks)
    by (by rewrite as_completed_perm).
  assert (Hp2 : mjoin (as_completed e2 tasks) ≡ₚ mjoin tasks)
    by (by rewrite as_completed_perm).
  split; [|split].
  - destruct (mjoin (as_completed e1 tasks)) as [|x l1] eqn:E1.
    + symmetry in Hp1. apply Permutation_nil_r in Hp1.
      rewrite Hp1 in Hp2. apply Permutation_nil_r in Hp2. by rewrite Hp2.
    + destruct (mjoin (as_completed e2 tasks)) as [|y l2] eqn:E2.
      * rewrite <- Hp2 in Hp1. by apply Permutation_nil_r in Hp1.
      * f_equal. apply merge_sort_order_independent.
        -- by rewrite Hp1, Hp2.
        -- by rewrite Hp1.
  - intros table. destruct (mjoin (as_completed e1 tasks)) as [|x l1] eqn:E1; [done|].
    intros [= <-]. split.
    + apply Sorted_merge_sort. apply _.
    + apply merge_sort_Permutation.
  - intros Hne. exists (merge_sort record_le (mjoin tasks)).
    assert (H : ∀ l, l ≡ₚ mjoin tasks →
              match l with
              | [] => Raise "KeyError"
              | _ :: _ => Ret (merge_sort record_le l)
              end = Ret (merge_sort record_le (mjoin tasks))).
    { intros l Hl. destruct l as [|x l].
      - symmetry in Hl. by apply Permutation_nil_r in Hl.
      - f_equal. apply merge_sort_order_independent; [done|by rewrite Hl]. }
    split; [by apply H|]. split; [by apply H|]. split.
    + apply Sorted_merge_sort. apply _.
    + apply merge_sort_Permutation.
Qed.

(** Two samples of three records each, one worker and submission order
    against four workers and the reverse order: both runs return the same
    table of six rows. *)
Lemma aggregation_order_independent_witness :
  ∃ table,
    igs_multiple (Samples.tigre_fixed None None) Samples.gff_files
      ["NC_1"; "NC_2"] 1 Samples.in_order = Ret table ∧
    igs_multiple (Samples.tigre_fixed None None) Samples.gff_files
      ["NC_1"; "NC_2"] 4 Samples.reversed = Ret table ∧
    length table = 6.
Proof.
  destruct (aggregation_order_independent (Samples.tigre_fixed None None)
              Samples.gff_files ["NC_1"; "NC_2"] 1 4
              Samples.in_order Samples.reversed) as (_ & _ & H).
  - lia.
  - lia.
  - vm_compute. apply NoDup_ListNoDup. repeat constructor; simpl; intuition discriminate.
  - destruct H as (table & H1 & H2 & _ & Hp); [by vm_compute|].
    exists table. split; [exact H1|]. split; [exact H2|].
    by rewrite Hp.
Defined.

End SummaryIgsClaims.

(** ** Frames *)

Section PolarsFacts.
Import Py Polars.

Lemma column_with_column_eq (name : string) (s : Series) (df : DataFrame) :
  column name (with_column name s df) = Some s.
Proof.
  induction df as [|[n s0] df IH]; simpl.
  - by rewrite decide_True.
  - destruct (decide (n = name)) as [->|Hne]; simpl.
    + by rewrite decide_True.
    + by rewrite decide_False.
Qed.

Lemma column_with_column_ne (name n : string) (s : Series) (df : DataFrame) :
  n ≠ name → column n (with_column name s df) = column n df.
Proof.
  intros Hne. induction df as [|[m s0] df IH]; simpl.
  - by rewrite decide_False.
  - destruct (decide (m = name)) as [->|Hm]; simpl.
    + by rewrite !decide_False.
    + by rewrite IH.
Qed.

Lemma columns_with_column (name : string) (s : Series) (df : DataFrame) :
  columns (with_column name s df) =
    if decide (name ∈ columns df) then columns df else columns df ++ [name].
Proof.
  unfold columns. induction df as [|[m s0] df IH]; cbn [with_column].
  - rewrite decide_False; [done|]. apply not_elem_of_nil.
  - rewrite fmap_cons. cbn [fst].
    destruct (decide (m = name)) as [->|Hm].
    + rewrite decide_True; [done|]. by left.
    + rewrite fmap_cons, IH. cbn [fst].
      destruct (decide (name ∈ df.*1)) as [Hin|Hin].
      * rewrite decide_True; [done|]. by right.
      * rewrite decide_False; [done|].
        intros [?|?]%elem_of_cons; congruence.
Qed.

Lemma column_drop_ne (name n : string) (df : DataFrame) :
  n ≠ name → column n (drop name df) = column n df.
Proof.
  intros Hne. unfold drop. induction df as [|[m s0] df IH]; [done|].
  destruct (decide (m = name)) as [->|Hm].
  - rewrite filter_cons_False by (simpl; auto).
    simpl. by rewrite decide_False.
  - rewrite filter_cons_True by done.
    simpl. by rewrite IH.
Qed.

Lemma columns_drop (name : string) (df : DataFrame) :
  columns (drop name df) = filter (λ n, n ≠ name) (columns df).
Proof.
  unfold drop, columns. induction df as [|[m s0] df IH]; [done|].
  rewrite fmap_cons. cbn [fst].
  destruct (decide (m = name)) as [->|Hm].
  - rewrite !filter_cons_False by (simpl; auto). done.
  - rewrite !filter_cons_True by done. rewrite fmap_cons. cbn [fst]. by rewrite IH.
Qed.

Lemma column_is_Some (name : string) (df : DataFrame) :
  is_Some (column name df) ↔ name ∈ columns df.
Proof.
  unfold columns. induction df as [|[m s0] df IH]; simpl.
  - split; [by intros [? ?]|by intros ?%elem_of_nil].
  - destruct (decide (m = name)) as [->|Hm].
    + split; [by left|by eexists].
    + rewrite IH, elem_of_cons. split; [by right|].
      intros [?|?]; [congruence|done].
Qed.

Lemma ints_of_ints (l : list Z) : ints (of_ints l) = Some l.
Proof.
  unfold ints, of_ints. apply mapM_Some.
  induction l; simpl; constructor; auto.
Qed.

Lemma ints_inv (s : Series) (l : list Z) : ints s = Some l → s = of_ints l.
Proof.
  unfold ints, of_ints. intros H%mapM_Some_1.
  induction H as [|c z s l Hc _ IH]; [done|].
  simpl. rewrite IH. destruct c as [[z'| |]|]; try discriminate.
  by injection Hc as ->.
Qed.

Lemma length_replace_strict (m : gmap Z Z) (l : list Z) :
  length (replace_strict m l) = length l.
Proof. unfold replace_strict. apply length_fmap. Qed.

End PolarsFacts.

(** ** Reconciliation *)

(** Runs the monadic steps at the head of a computation. *)
Ltac exec :=
unfold mbind, Brms.M_bind, mret, Brms.M_ret, Brms.log, Brms.emit, Brms.lift,
  Brms.sys_exit, Brms.when;
cbv beta iota; cbn [fst snd andb negb].

Section BrmsFacts.
Import Py Polars Ete Brms.

Lemma mapM_omap {A B} (f : A → option B) (l : list A) (k : list B) :
  mapM f l = Some k → omap f l = k.
Proof.
  intros E%mapM_Some.
  induction E as [|x y l1 l2 Hxy _ IH]; [done|].
  simpl. rewrite Hxy. f_equal. exact IH.
Qed.

Lemma to_int_set_taxa (ids : list Z) (m : gset string) (tr : list event) :
  m ⊆ taxa_of ids →
  to_int_set m tr = (tr, Ret (list_to_set (omap int (elements m)))).
Proof.
  intros Hsub. unfold to_int_set.
  destruct (mapM int (elements m)) as [l|] eqn:E.
  - by rewrite (mapM_omap _ _ _ E).
  - exfalso. assert (is_Some (mapM int (elements m))) as [? ?]; [|congruence].
    apply mapM_is_Some, Forall_forall. intros s Hs%elem_of_elements.
    apply Hsub in Hs. unfold taxa_of in Hs.
    apply elem_of_list_to_set, list_elem_of_fmap in Hs as (z & -> & _).
    simpl. rewrite int_str. by eexists.
Qed.

Lemma missing_in_taxa (ncbi : NCBITaxa) (ids : list Z) :
  missing_in ncbi ids ⊆ taxa_of ids.
Proof. unfold missing_in. apply subseteq_difference_l. done. Qed.

(** The parents asked for are the taxids of the column whose numeral is
    missing from the tree. *)
Lemma elem_of_missing_ints (ncbi : NCBITaxa) (ids : list Z) (p : Z) :
  p ∈ missing_ints ncbi ids ↔ str p ∈ missing_in ncbi ids.
Proof.
  unfold missing_ints. rewrite elem_of_list_to_set, list_elem_of_omap.
  split.
  - intros (s & Hs%elem_of_elements & Hp).
    pose proof (missing_in_taxa ncbi ids s Hs) as Ht.
    unfold taxa_of in Ht.
    apply elem_of_list_to_set, list_elem_of_fmap in Ht as (z & -> & _).
    rewrite int_str in Hp. by injection Hp as ->.
  - intros H. exists (str p). split; [by apply elem_of_elements|apply int_str].
Qed.

Lemma validade_tree_run (ncbi : NCBITaxa) (ids : list Z) (tr : list event) :
  validade_tree (tree_of ncbi ids) (taxa_of ids) tr
  = (tr ++ validation_log ncbi ids, Ret (missing_in ncbi ids, extra_in ncbi ids)).
Proof.
  unfold validade_tree, validation_log.
  fold (missing_in ncbi ids). fold (extra_in ncbi ids).
  exec.
  destruct (bool_decide (missing_in ncbi ids ≠ ∅));
    destruct (bool_decide (extra_in ncbi ids ≠ ∅)); simpl;
    by rewrite <- ?app_assoc, ?app_nil_r.
Qed.

Lemma substitute_run (ncbi : NCBITaxa) (src : string) (tsv : DataFrame)
    (ids : list Z) (msg : string) (tr : list event) :
  column src tsv = Some (of_ints ids) →
  substitute ncbi src tsv (missing_in ncbi ids) msg tr
  = (tr ++ [FirstDescendants (missing_ints ncbi ids);
            GetTopology (substituted ncbi ids);
            Log INFO msg ∅] ++ validation_log ncbi (substituted ncbi ids),
     Ret (with_column "taxon_tree" (of_ints (substituted ncbi ids)) tsv,
          tree_of ncbi (substituted ncbi ids),
          missing_in ncbi (substituted ncbi ids))).
Proof.
  intros Hc. unfold substitute.
  unfold mbind at 1. unfold M_bind at 1.
  rewrite (to_int_set_taxa ids) by apply missing_in_taxa.
  fold (missing_ints ncbi ids).
  unfold taxid_column. rewrite Hc, ints_of_ints.
  exec. fold (substituted ncbi ids).
  rewrite column_with_column_eq, ints_of_ints.
  unfold topology. fold (tree_of ncbi (substituted ncbi ids)).
  exec.
  rewrite validade_tree_run. cbn [fst snd].
  by rewrite <- !app_assoc.
Qed.

(** The four ways [reconcile] ends on an integer column, with the trace
    each leaves. *)
Lemma reconcile_no_missing (ncbi : NCBITaxa) (tsv : DataFrame) (ids : list Z)
    (tr : list event) :
  column "ncbi_taxid" tsv = Some (of_ints ids) →
  missing_in ncbi ids = ∅ →
  reconcile ncbi tsv tr
  = (tr ++ [Log INFO "Creating ultrametric tree for BRMS..." ∅;
            GetTopology ids;
            Log INFO "Tree created, now validating it..." ∅]
        ++ validation_log ncbi ids
        ++ (if bool_decide (extra_in ncbi ids = ∅)
            then [Log INFO "Tree validation successful: all taxa match." ∅]
            else []),
     Ret (if bool_decide (extra_in ncbi ids = ∅)
          then with_column "taxon_tree" (of_ints ids) tsv else tsv,
          tree_of ncbi ids)).
Proof.
  intros Hc Hm. unfold reconcile, taxid_column, topology.
  rewrite Hc, ints_of_ints. exec. fold (tree_of ncbi ids).
  rewrite validade_tree_run. cbn [fst snd].
  rewrite (bool_decide_eq_true_2 (missing_in ncbi ids = ∅)) by done.
  rewrite (bool_decide_eq_false_2 (missing_in ncbi ids ≠ ∅)) by auto.
  cbn [andb].
  destruct (bool_decide (extra_in ncbi ids = ∅)); cbv beta iota;
    by rewrite <- ?app_assoc, ?app_nil_r.
Qed.

Lemma reconcile_first_round (ncbi : NCBITaxa) (tsv : DataFrame) (ids : list Z)
    (tr : list event) :
  column "ncbi_taxid" tsv = Some (of_ints ids) →
  missing_in ncbi ids ≠ ∅ →
  missing_in ncbi (substituted ncbi ids) = ∅ →
  reconcile ncbi tsv tr
  = (tr ++ [Log INFO "Creating ultrametric tree for BRMS..." ∅;
            GetTopology ids;
            Log INFO "Tree created, now validating it..." ∅]
        ++ validation_log ncbi ids
        ++ [Log INFO "Replacing missing taxa with first descendant..." ∅;
            FirstDescendants (missing_ints ncbi ids);
            GetTopology (substituted ncbi ids);
            Log INFO "Re-validation of the tree after replacement..." ∅]
        ++ validation_log ncbi (substituted ncbi ids)
        ++ [Log INFO "All missing taxa replaced successfully by their first descendant." ∅],
     Ret (with_column "taxon_tree" (of_ints (substituted ncbi ids)) tsv,
          tree_of ncbi (substituted ncbi ids))).
Proof.
  intros Hc Hm Hm1. unfold reconcile, taxid_column, topology.
  rewrite Hc, ints_of_ints. exec. fold (tree_of ncbi ids).
  rewrite validade_tree_run. cbn [fst snd].
  rewrite (bool_decide_eq_false_2 (missing_in ncbi ids = ∅)) by done.
  rewrite (bool_decide_eq_true_2 (missing_in ncbi ids ≠ ∅)) by done.
  cbn [andb]. cbv beta iota.
  rewrite (substitute_run ncbi "ncbi_taxid" tsv ids) by done. cbn [fst snd].
  rewrite (bool_decide_eq_false_2 (missing_in ncbi (substituted ncbi ids) ≠ ∅)) by auto.
  cbv beta iota. by rewrite <- !app_assoc.
Qed.

Lemma reconcile_second_round (ncbi : NCBITaxa) (tsv : DataFrame) (ids : list Z)
    (tr : list event) :
  column "ncbi_taxid" tsv = Some (of_ints ids) →
  missing_in ncbi ids ≠ ∅ →
  missing_in ncbi (substituted ncbi ids) ≠ ∅ →
  let ids1 := substituted ncbi ids in
  let ids2 := substituted ncbi ids1 in
  reconcile ncbi tsv tr
  = (tr ++ [Log INFO "Creating ultrametric tree for BRMS..." ∅;
            GetTopology ids;
            Log INFO "Tree created, now validating it..." ∅]
        ++ validation_log ncbi ids
        ++ [Log INFO "Replacing missing taxa with first descendant..." ∅;
            FirstDescendants (missing_ints ncbi ids);
            GetTopology ids1;
            Log INFO "Re-validation of the tree after replacement..." ∅]
        ++ validation_log ncbi ids1
        ++ [Log WARNING "Some taxa are still missing in the tree after replacement, going for second round." ∅;
            Log DEBUG "Missing taxa" (missing_in ncbi ids1);
            FirstDescendants (missing_ints ncbi ids1);
            GetTopology ids2;
            Log INFO "Re-re-validation of the tree after replacement..." ∅]
        ++ validation_log ncbi ids2
        ++ (if bool_decide (missing_in ncbi ids2 ≠ ∅)
            then [Log ERROR "Some taxa are still missing in the tree after second replacement, we give up." ∅;
                  Log DEBUG "Missing taxa" (missing_in ncbi ids2)]
            else [Log INFO "All missing taxa replaced successfully by their first descendant, first descendant." ∅]),
     if bool_decide (missing_in ncbi ids2 ≠ ∅) then SysExit 1
     else Ret (with_column "taxon_tree" (of_ints ids2)
                 (with_column "taxon_tree" (of_ints ids1) tsv),
               tree_of ncbi ids2)).
Proof.
  intros Hc Hm Hm1 ids1 ids2. unfold reconcile, taxid_column, topology.
  rewrite Hc, ints_of_ints. exec. fold (tree_of ncbi ids).
  rewrite validade_tree_run. cbn [fst snd].
  rewrite (bool_decide_eq_false_2 (missing_in ncbi ids = ∅)) by done.
  rewrite (bool_decide_eq_true_2 (missing_in ncbi ids ≠ ∅)) by done.
  cbn [andb]. cbv beta iota.
  rewrite (substitute_run ncbi "ncbi_taxid" tsv ids) by done. cbn [fst snd].
  fold ids1.
  rewrite (bool_decide_eq_true_2 (missing_in ncbi ids1 ≠ ∅)) by done.
  cbv beta iota.
  rewrite (substitute_run ncbi "taxon_tree" _ ids1)
    by apply column_with_column_eq.
  cbn [fst snd]. fold ids2.
  destruct (bool_decide (missing_in ncbi ids2 ≠ ∅)); cbv beta iota;
    by rewrite <- !app_assoc.
Qed.

Lemma topologies_validation_log ncbi ids : topologies (validation_log ncbi ids) = [].
Proof. unfold validation_log. by repeat case_bool_decide. Qed.

Lemma descendant_queries_validation_log ncbi ids :
  descendant_queries (validation_log ncbi ids) = [].
Proof. unfold validation_log. by repeat case_bool_decide. Qed.

Lemma trees_written_validation_log ncbi ids :
  trees_written (validation_log ncbi ids) = [].
Proof. unfold validation_log. by repeat case_bool_decide. Qed.

Lemma column_drop_gi (name : string) (tsv : DataFrame) :
  name ≠ "GI" → column name (drop_gi tsv) = column name tsv.
Proof.
  intros Hne. unfold drop_gi. case_bool_decide; [|done].
  by apply column_drop_ne.
Qed.

Lemma run_single_run (env : Env) (tsv igs : DataFrame) (an : string)
    (upd : bool) :
  required_columns ⊆ columns tsv →
  run_single env tsv igs an upd []
  = (reconcile (if upd then ncbi_updated env else ncbi_local env) (drop_gi tsv)
       ≫= λ r, fit env r.2 r.1 igs an) (update_log upd).
Proof.
  intros Hreq. unfold run_single, update_log.
  rewrite bool_decide_eq_true_2 by done. cbn [negb].
  destruct upd; exec; done.
Qed.

(** [fit] writes the tree first and neither builds nor writes another. *)
Lemma fit_run (env : Env) (tree : Tree) (tsv igs : DataFrame) (an : string)
    (tr : list event) :
  ∃ rest r,
    fit env tree tsv igs an tr = (tr ++ TreeWrite tree :: rest, r) ∧
    topologies rest = [] ∧ descendant_queries rest = [] ∧
    trees_written rest = [].
Proof.
  unfold fit. exec.
  destruct (join_and_derive igs tsv an) as [out|c|e]; cbv beta iota.
  - destruct (bool_decide (Rscript env tree out = 0%Z)); cbv beta iota;
      eexists _, _; (split; [by rewrite <- !app_assoc|done]).
  - eexists _, _. split; [by rewrite <- !app_assoc|done].
  - eexists _, _. split; [by rewrite <- !app_assoc|done].
Qed.

Lemma topologies_app tr1 tr2 : topologies (tr1 ++ tr2) = topologies tr1 ++ topologies tr2.
Proof. apply omap_app. Qed.

Lemma descendant_queries_app tr1 tr2 :
  descendant_queries (tr1 ++ tr2) = descendant_queries tr1 ++ descendant_queries tr2.
Proof. apply omap_app. Qed.

Lemma trees_written_app tr1 tr2 :
  trees_written (tr1 ++ tr2) = trees_written tr1 ++ trees_written tr2.
Proof. apply omap_app. Qed.

Lemma update_log_quiet upd :
  topologies (update_log upd) = [] ∧ descendant_queries (update_log upd) = [] ∧
  trees_written (update_log upd) = [].
Proof. by destruct upd. Qed.

Lemma min_taxid_Some (group : list Z) (d : Z) :
  min_taxid group = Some d ↔ d ∈ group ∧ ∀ c, c ∈ group → (d ≤ c)%Z.
Proof.
  revert d. induction group as [|x l IH]; intros d; simpl.
  - split; [done|]. intros [H%elem_of_nil _]. done.
  - destruct (min_taxid l) as [m|] eqn:E.
    + pose proof (proj1 (IH m) eq_refl) as [Hm Hle].
      split.
      * intros [= <-]. split.
        -- destruct (Z.min_spec x m) as [[_ ->]|[_ ->]]; [by left|by right].
        -- intros c [->|Hc]%elem_of_cons; [lia|]. specialize (Hle c Hc). lia.
      * intros [Hd Hmin]. f_equal.
        pose proof (Hmin x ltac:(by left)).
        pose proof (Hmin m ltac:(by right)).
        apply elem_of_cons in Hd as [->|Hd]; [lia|].
        specialize (Hle d Hd). lia.
    + assert (l = []) as ->.
      { destruct l as [|y l']; [done|]. simpl in E. done. }
      split.
      * intros [= <-]. split; [by left|].
        intros c [->|Hc%elem_of_nil]%elem_of_cons; [lia|done].
      * intros [[->|Hd%elem_of_nil]%elem_of_cons _]; done.
Qed.

(** The query returns, for a parent that was asked for, the minimum over
    its rows, and nothing for the other parents. *)
Lemma get_first_descendants_lookup (ncbi : NCBITaxa) (taxids : gset Z) (p : Z) :
  get_first_descendants ncbi taxids !! p
  = if decide (p ∈ taxids) then min_taxid (children ncbi p) else None.
Proof.
  unfold get_first_descendants, children.
  induction (species ncbi) as [|[t q] rows IH]; simpl.
  - rewrite lookup_empty. by destruct (decide (p ∈ taxids)).
  - destruct (decide (q = p)) as [->|Hq].
    + rewrite filter_cons_True by done. simpl.
      destruct (decide (p ∈ taxids)) as [Hp|Hp].
      * rewrite lookup_insert_eq, IH. done.
      * exact IH.
    + rewrite filter_cons_False by done.
      destruct (decide (q ∈ taxids)); [|exact IH].
      rewrite lookup_insert_ne by done. exact IH.
Qed.

Ltac traces Hq :=
  destruct Hq as (Hq1 & Hq2 & Hq3);
  cbn [fst snd];
  rewrite ?topologies_app, ?descendant_queries_app, ?trees_written_app,
    ?topologies_validation_log, ?descendant_queries_validation_log,
    ?trees_written_validation_log;
  rewrite ?(proj1 (update_log_quiet _)),
    ?(proj1 (proj2 (update_log_quiet _))),
    ?(proj2 (proj2 (update_log_quiet _)));
  try case_bool_decide;
  unfold topologies, descendant_queries, trees_written in *;
  cbn [omap list_omap app];
  rewrite ?Hq1, ?Hq2, ?Hq3.

(** A run on a table with the required columns and an integer taxid
    column, by the validations it goes through. *)
Lemma run_no_missing (env : Env) (tsv igs : DataFrame) (an : string)
    (upd : bool) (ids : list Z) :
  required_columns ⊆ columns tsv →
  column "ncbi_taxid" tsv = Some (of_ints ids) →
  let ncbi := if upd then ncbi_updated env else ncbi_local env in
  let run := run_single env tsv igs an upd [] in
  missing_in ncbi ids = ∅ →
  topologies run.1 = [ids] ∧ descendant_queries run.1 = [] ∧
  trees_written run.1 = [tree_of ncbi ids] ∧
  ∃ tr0,
    run = fit env (tree_of ncbi ids)
            (if bool_decide (extra_in ncbi ids = ∅)
             then with_column "taxon_tree" (of_ints ids) (drop_gi tsv)
             else drop_gi tsv)
            igs an tr0 ∧
    (extra_in ncbi ids ≠ ∅ →
     Log ERROR "Extra taxa in tree" (extra_in ncbi ids) ∈ tr0).
Proof.
  intros Hreq Hc ncbi run Hm.
  pose proof (run_single_run env tsv igs an upd Hreq) as Hrun.
  fold ncbi in Hrun. fold run in Hrun.
  unfold mbind, M_bind in Hrun.
  rewrite (reconcile_no_missing ncbi _ ids) in Hrun
    by (by rewrite ?column_drop_gi).
  cbn [fst snd] in Hrun.
  assert (Hex : ∃ tr0,
    run = fit env (tree_of ncbi ids)
            (if bool_decide (extra_in ncbi ids = ∅)
             then with_column "taxon_tree" (of_ints ids) (drop_gi tsv)
             else drop_gi tsv)
            igs an tr0 ∧
    (extra_in ncbi ids ≠ ∅ →
     Log ERROR "Extra taxa in tree" (extra_in ncbi ids) ∈ tr0)).
  { eexists. split; [exact Hrun|].
    intros Hx. apply elem_of_app. right. apply elem_of_app. right.
    apply elem_of_app. left. unfold validation_log.
    rewrite (bool_decide_eq_true_2 (extra_in ncbi ids ≠ ∅)) by done.
    apply elem_of_app. right. by left. }
  match type of Hrun with context [fit ?e ?t ?d ?i ?a ?tr] =>
    destruct (fit_run e t d i a tr) as (rest & r & Hfit & Hq);
    rewrite Hfit in Hrun
  end.
  split; [rewrite Hrun; by traces Hq|].
  split; [rewrite Hrun; by traces Hq|].
  split; [rewrite Hrun; by traces Hq|].
  exact Hex.
Qed.

Lemma run_first_round (env : Env) (tsv igs : DataFrame) (an : string)
    (upd : bool) (ids : list Z) :
  required_columns ⊆ columns tsv →
  column "ncbi_taxid" tsv = Some (of_ints ids) →
  let ncbi := if upd then ncbi_updated env else ncbi_local env in
  let ids1 := substituted ncbi ids in
  let run := run_single env tsv igs an upd [] in
  missing_in ncbi ids ≠ ∅ → missing_in ncbi ids1 = ∅ →
  topologies run.1 = [ids; ids1] ∧
  descendant_queries run.1 = [missing_ints ncbi ids] ∧
  trees_written run.1 = [tree_of ncbi ids1].
Proof.
  intros Hreq Hc ncbi ids1 run Hm Hm1.
  pose proof (run_single_run env tsv igs an upd Hreq) as Hrun.
  fold ncbi in Hrun. fold run in Hrun.
  unfold mbind, M_bind in Hrun.
  rewrite (reconcile_first_round ncbi _ ids) in Hrun
    by (by rewrite ?column_drop_gi).
  cbn [fst snd] in Hrun. fold ids1 in Hrun.
  match type of Hrun with context [fit ?e ?t ?d ?i ?a ?tr] =>
    destruct (fit_run e t d i a tr) as (rest & r & Hfit & Hq);
    rewrite Hfit in Hrun
  end.
  rewrite Hrun.
  split; [by traces Hq|]. split; by traces Hq.
Qed.

Lemma run_second_round (env : Env) (tsv igs : DataFrame) (an : string)
    (upd : bool) (ids : list Z) :
  required_columns ⊆ columns tsv →
  column "ncbi_taxid" tsv = Some (of_ints ids) →
  let ncbi := if upd then ncbi_updated env else ncbi_local env in
  let ids1 := substituted ncbi ids in
  let ids2 := substituted ncbi ids1 in
  let run := run_single env tsv igs an upd [] in
  missing_in ncbi ids ≠ ∅ → missing_in ncbi ids1 ≠ ∅ →
  topologies run.1 = [ids; ids1; ids2] ∧
  descendant_queries run.1 = [missing_ints ncbi ids; missing_ints ncbi ids1] ∧
  (missing_in ncbi ids2 = ∅ → trees_written run.1 = [tree_of ncbi ids2]) ∧
  (missing_in ncbi ids2 ≠ ∅ → trees_written run.1 = [] ∧ run.2 = SysExit 1).
Proof.
  intros Hreq Hc ncbi ids1 ids2 run Hm Hm1.
  pose proof (run_single_run env tsv igs an upd Hreq) as Hrun.
  fold ncbi in Hrun. fold run in Hrun.
  unfold mbind, M_bind in Hrun.
  rewrite (reconcile_second_round ncbi _ ids) in Hrun
    by (by rewrite ?column_drop_gi).
  cbn [fst snd] in Hrun. fold ids1 in Hrun. fold ids2 in Hrun.
  destruct (decide (missing_in ncbi ids2 = ∅)) as [Hm2|Hm2].
  - rewrite !(bool_decide_eq_false_2 (missing_in ncbi ids2 ≠ ∅)) in Hrun by auto.
    match type of Hrun with context [fit ?e ?t ?d ?i ?a ?tr] =>
      destruct (fit_run e t d i a tr) as (rest & r & Hfit & Hq);
      rewrite Hfit in Hrun
    end.
    rewrite Hrun.
    split; [by traces Hq|]. split; [by traces Hq|].
    split; [intros _; by traces Hq|by intros ?].
  - rewrite !(bool_decide_eq_true_2 (missing_in ncbi ids2 ≠ ∅)) in Hrun by done.
    pose proof (conj (eq_refl (@nil (list Z)))
                  (conj (eq_refl (@nil (gset Z))) (eq_refl (@nil Tree)))) as Hq.
    rewrite Hrun.
    split; [by traces Hq|]. split; [by traces Hq|].
    split; [by intros ?|intros _; split; [by traces Hq|done]].
Qed.

Lemma join_and_derive_no_exit (igs tsv : DataFrame) (an : string) (c : Z) :
  join_and_derive igs tsv an ≠ SysExit c.
Proof.
  unfold join_and_derive, join_left, sort2.
  repeat (case_match; try done).
Qed.


Lemma reconcile_Ret_ints (ncbi : NCBITaxa) (tsv : DataFrame)
    (tr tr' : list event) (r : DataFrame * Tree) :
  reconcile ncbi tsv tr = (tr', Ret r) →
  ∃ ids, column "ncbi_taxid" tsv = Some (of_ints ids).
Proof.
  unfold reconcile, taxid_column.
  destruct (column "ncbi_taxid" tsv) as [s|]; [|by exec].
  destruct (ints s) as [l|] eqn:E; [|by exec].
  intros _. exists l. f_equal. by apply ints_inv.
Qed.

(** What [reconcile] leaves of the table: every column but [taxon_tree]
    is as before; [taxon_tree] is written unless the first tree had extra
    leaves only. *)
Lemma reconcile_frame (ncbi : NCBITaxa) (tsv tsv' : DataFrame)
    (tr tr' : list event) (tree : Tree) :
  reconcile ncbi tsv tr = (tr', Ret (tsv', tree)) →
  ∃ ids, column "ncbi_taxid" tsv = Some (of_ints ids) ∧
    (∀ name, name ≠ "taxon_tree" → column name tsv' = column name tsv) ∧
    (missing_in ncbi ids ≠ ∅ ∨ extra_in ncbi ids = ∅ →
     ∃ final, column "taxon_tree" tsv' = Some (of_ints final) ∧
              length final = length ids ∧ tree = tree_of ncbi final).
Proof.
  intros Hrun.
  destruct (reconcile_Ret_ints _ _ _ _ _ Hrun) as [ids Hc].
  exists ids. split; [exact Hc|].
  destruct (decide (missing_in ncbi ids = ∅)) as [E0|E0].
  { rewrite (reconcile_no_missing ncbi tsv ids) in Hrun by done.
    injection Hrun as _ <- <-. case_bool_decide as Ex.
    - split; [intros name Hn; by apply column_with_column_ne|].
      intros _. exists ids. by rewrite column_with_column_eq.
    - split; [done|]. intros [?|?]; done. }
  destruct (decide (missing_in ncbi (substituted ncbi ids) = ∅)) as [E1|E1].
  { rewrite (reconcile_first_round ncbi tsv ids) in Hrun by done.
    injection Hrun as _ <- <-.
    split; [intros name Hn; by apply column_with_column_ne|].
    intros _. exists (substituted ncbi ids).
    rewrite column_with_column_eq. split; [done|]. split; [|done].
    apply length_replace_strict. }
  rewrite (reconcile_second_round ncbi tsv ids) in Hrun by done.
  case_bool_decide as E2; [by injection Hrun|].
  injection Hrun as _ <- <-.
  split; [intros name Hn; by rewrite !column_with_column_ne|].
  intros _. exists (substituted ncbi (substituted ncbi ids)).
  rewrite column_with_column_eq. split; [done|]. split; [|done].
  unfold substituted. by rewrite !length_replace_strict.
Qed.

Lemma tables_written_app tr1 tr2 :
  tables_written (tr1 ++ tr2) = tables_written tr1 ++ tables_written tr2.
Proof. apply omap_app. Qed.

Lemma elem_of_tables_written (out : DataFrame) (tr : list event) :
  out ∈ tables_written tr ↔ SinkCsv out ∈ tr.
Proof.
  unfold tables_written. rewrite list_elem_of_omap. split.
  - intros (e & He & Ho). destruct e; try discriminate. by injection Ho as ->.
  - intros H. by exists (SinkCsv out).
Qed.

Lemma elem_of_trees_written (tree : Tree) (tr : list event) :
  tree ∈ trees_written tr ↔ TreeWrite tree ∈ tr.
Proof.
  unfold trees_written. rewrite list_elem_of_omap. split.
  - intros (e & He & Ho). destruct e; try discriminate. by injection Ho as ->.
  - intros H. by exists (TreeWrite tree).
Qed.

Lemma quiet_ret {A} (a : A) : quiet (mret a).
Proof. by intros tr. Qed.

Lemma quiet_lift {A} (r : res A) : quiet (lift r).
Proof. by intros tr. Qed.

Lemma quiet_sys_exit {A} (c : Z) : quiet (sys_exit (A := A) c).
Proof. by intros tr. Qed.

Lemma quiet_emit (e : event) :
  trees_written [e] = [] → tables_written [e] = [] → quiet (emit e).
Proof.
  intros H1 H2 tr. unfold emit. cbn [fst].
  rewrite trees_written_app, tables_written_app, H1, H2.
  by rewrite !app_nil_r.
Qed.

Lemma quiet_log (lv : level) (msg : string) : quiet (log lv msg).
Proof. by apply quiet_emit. Qed.

Lemma quiet_bind {A B} (m : M A) (k : A → M B) :
  quiet m → (∀ a, quiet (k a)) → quiet (m ≫= k).
Proof.
  intros Hm Hk tr. unfold mbind, M_bind.
  destruct (Hm tr) as [H1 H2]. destruct (m tr) as [tr' [a|c|e]]; [|done|done].
  destruct (Hk a tr') as [H3 H4]. cbn [fst] in *. by rewrite H3, H4.
Qed.

Lemma quiet_when (b : bool) (m : M unit) : quiet m → quiet (when b m).
Proof. intros Hm. destruct b; [done|apply quiet_ret]. Qed.

Ltac quiet_step :=
  first [ apply quiet_ret | apply quiet_lift | apply quiet_sys_exit
        | apply quiet_log | (apply quiet_emit; reflexivity)
        | (apply quiet_when) | (apply quiet_bind; [|intros ?]) ].

Lemma quiet_validade_tree (tree : Tree) (taxa : gset string) :
  quiet (validade_tree tree taxa).
Proof. unfold validade_tree. repeat quiet_step. Qed.

Lemma quiet_taxid_column (name : string) (df : DataFrame) :
  quiet (taxid_column name df).
Proof. unfold taxid_column. repeat case_match; quiet_step. Qed.

Lemma quiet_topology (ncbi : NCBITaxa) (taxids : list Z) :
  quiet (topology ncbi taxids).
Proof. unfold topology. repeat quiet_step. Qed.

Lemma quiet_to_int_set (missing : gset string) : quiet (to_int_set missing).
Proof. unfold to_int_set. case_match; quiet_step. Qed.

Lemma quiet_substitute (ncbi : NCBITaxa) (src : string) (tsv : DataFrame)
    (missing : gset string) (msg : string) :
  quiet (substitute ncbi src tsv missing msg).
Proof.
  unfold substitute.
  repeat first [ apply quiet_to_int_set | apply quiet_taxid_column
               | apply quiet_topology | apply quiet_validade_tree
               | quiet_step ].
Qed.

(** Reconciliation writes neither a tree nor a table, however it ends. *)
Lemma quiet_reconcile (ncbi : NCBITaxa) (tsv : DataFrame) :
  quiet (reconcile ncbi tsv).
Proof.
  unfold reconcile.
  repeat first [ apply quiet_substitute | apply quiet_taxid_column
               | apply quiet_topology | apply quiet_validade_tree
               | quiet_step
               | match goal with
                 | |- quiet (if ?b then _ else _) => destruct b
                 end ].
Qed.

Lemma tables_written_update_log upd : tables_written (update_log upd) = [].
Proof. by destruct upd. Qed.

Lemma trees_written_update_log upd : trees_written (update_log upd) = [].
Proof. by destruct upd. Qed.

(** [fit] writes at most one table: the one [join_and_derive] returns. *)
Lemma fit_tables (env : Env) (tree : Tree) (tsv igs : DataFrame) (an : string)
    (tr : list event) :
  tables_written (fit env tree tsv igs an tr).1
  = tables_written tr
    ++ match join_and_derive igs tsv an with Ret out => [out] | _ => [] end.
Proof.
  unfold fit. exec.
  destruct (join_and_derive igs tsv an) as [out|c|e]; cbv beta iota.
  - destruct (bool_decide (Rscript env tree out = 0%Z)); cbv beta iota;
      cbn [fst]; rewrite <- !app_assoc; by rewrite tables_written_app.
  - cbn [fst]. rewrite <- !app_assoc. by rewrite tables_written_app.
  - cbn [fst]. rewrite <- !app_assoc. by rewrite tables_written_app.
Qed.

(** The table a run writes is the join of the IGS table with what
    reconciliation returns for the metadata without [GI]; no other table is
    written. *)
Lemma run_single_tables (env : Env) (tsv igs : DataFrame) (an : string)
    (upd : bool) :
  tables_written (run_single env tsv igs an upd []).1
  = if bool_decide (required_columns ⊆ columns tsv) then
      match reconcile (if upd then ncbi_updated env else ncbi_local env)
              (drop_gi tsv) (update_log upd) with
      | (_, Ret r) =>
          match join_and_derive igs r.1 an with Ret out => [out] | _ => [] end
      | _ => []
      end
    else [].
Proof.
  case_bool_decide as Hreq.
  - rewrite run_single_run by done. unfold mbind, M_bind.
    pose proof (quiet_reconcile (if upd then ncbi_updated env else ncbi_local env)
                  (drop_gi tsv) (update_log upd)) as [_ Hq].
    rewrite tables_written_update_log in Hq.
    destruct (reconcile _ _ _) as [tr' [r|c|e]]; cbn [fst] in *; [|done|done].
    by rewrite fit_tables, Hq.
  - unfold run_single. rewrite bool_decide_eq_false_2 by done. by exec.
Qed.

End BrmsFacts.

Section BrmsClaims.
Import Py Polars Ete Brms.

Ltac by_compute := apply (bool_decide_unpack _); vm_compute; exact I.

(** C1: a run builds at most three trees and asks for descendants at most
    twice. When taxa are still missing after the third tree (the first one
    and one per substitution round) the run ends in [sys.exit(1)] and no
    tree is written; when the missing set is empty at the first, second or
    third validation, the tree of that validation is written. *)
Theorem retry_budget (env : Env) (tsv igs : DataFrame) (an : string)
    (upd : bool) (ids : list Z) :
  required_columns ⊆ columns tsv →
  column "ncbi_taxid" tsv = Some (of_ints ids) →
  let ncbi := if upd then ncbi_updated env else ncbi_local env in
  let ids1 := substituted ncbi ids in
  let ids2 := substituted ncbi ids1 in
  let run := run_single env tsv igs an upd [] in
  length (topologies run.1) ≤ 3 ∧
  length (descendant_queries run.1) ≤ 2 ∧
  (missing_in ncbi ids ≠ ∅ → missing_in ncbi ids1 ≠ ∅ →
   missing_in ncbi ids2 ≠ ∅ →
   run.2 = SysExit 1 ∧ topologies run.1 = [ids; ids1; ids2] ∧
   trees_written run.1 = []) ∧
  (missing_in ncbi ids = ∅ → trees_written run.1 = [tree_of ncbi ids]) ∧
  (missing_in ncbi ids ≠ ∅ → missing_in ncbi ids1 = ∅ →
   trees_written run.1 = [tree_of ncbi ids1]) ∧
  (missing_in ncbi ids ≠ ∅ → missing_in ncbi ids1 ≠ ∅ →
   missing_in ncbi ids2 = ∅ → trees_written run.1 = [tree_of ncbi ids2]).
Proof.
  intros Hreq Hc ncbi ids1 ids2 run.
  pose proof (run_no_missing env tsv igs an upd ids Hreq Hc) as H0.
  pose proof (run_first_round env tsv igs an upd ids Hreq Hc) as H1.
  pose proof (run_second_round env tsv igs an upd ids Hreq Hc) as H2.
  cbv zeta in H0, H1, H2.
  fold ncbi in H0, H1, H2. fold ids1 in H1, H2. fold ids2 in H2.
  fold run in H0, H1, H2.
  assert (Hlen : length (topologies run.1) ≤ 3 ∧
                 length (descendant_queries run.1) ≤ 2).
  { destruct (decide (missing_in ncbi ids = ∅)) as [E0|E0].
    { destruct (H0 E0) as (-> & -> & _). simpl. lia. }
    destruct (decide (missing_in ncbi ids1 = ∅)) as [E1|E1].
    { destruct (H1 E0 E1) as (-> & -> & _). simpl. lia. }
    destruct (H2 E0 E1) as (-> & -> & _). simpl. lia. }
  destruct Hlen as [Ht Hd].
  split; [exact Ht|]. split; [exact Hd|].
  split.
  { intros E0 E1 E2. destruct (H2 E0 E1) as (Htop & _ & _ & Hexit).
    destruct (Hexit E2) as [Hw Hr]. done. }
  split.
  { intros E0. by destruct (H0 E0) as (_ & _ & Hw & _). }
  split.
  { intros E0 E1. by destruct (H1 E0 E1) as (_ & _ & Hw). }
  intros E0 E1 E2. destruct (H2 E0 E1) as (_ & _ & Hw & _). auto.
Qed.

Lemma retry_budget_witness :
  (run_single (Samples.env Samples.ncbi_deep) Samples.tsv Samples.igs "AN"
     false []).2 = SysExit 1.
Proof.
  pose proof (retry_budget (Samples.env Samples.ncbi_deep) Samples.tsv
                Samples.igs "AN" false [100; 5]%Z
                ltac:(by_compute) eq_refl) as (_ & _ & H & _).
  apply H; by_compute.
Defined.



(** C2, at an input with an extra leaf: every taxid of the table is a leaf
    of the first tree, the tree has one more leaf, and the table the run
    writes has no [taxon_tree] column. *)
Lemma identity_remap_skipped_on_extra_leaf :
  missing_in Samples.ncbi_extra [100; 5]%Z = ∅ ∧
  extra_in Samples.ncbi_extra [100; 5]%Z = {["999"]} ∧
  ∃ out,
    SinkCsv out ∈ (run_single (Samples.env Samples.ncbi_extra) Samples.tsv
                     Samples.igs "AN" false []).1 ∧
    column "ncbi_taxid" out
      = Some [Some (VInt 100); Some (VInt 100); None] ∧
    column "taxon_tree" out = None.
Proof.
  split; [by_compute|]. split; [by_compute|].
  eexists. split; [|split].
  - vm_compute. repeat first [apply list_elem_of_here|apply list_elem_of_further].
  - reflexivity.
  - reflexivity.
Qed.

(** C9: reconciliation never modifies the [ncbi_taxid] column, nor any
    column other than [taxon_tree]: the table it returns has every other
    column as it was. Whenever a substitution round ran, or the first
    validation found neither missing nor extra taxa, [taxon_tree] holds the
    final taxids, row by row next to the original ones, and the tree is
    the tree of that column. *)
Theorem ncbi_taxid_untouched (ncbi : NCBITaxa) (tsv tsv' : DataFrame)
    (tr tr' : list event) (tree : Tree) :
  reconcile ncbi tsv tr = (tr', Ret (tsv', tree)) →
  column "ncbi_taxid" tsv' = column "ncbi_taxid" tsv ∧
  (∀ name, name ≠ "taxon_tree" → column name tsv' = column name tsv) ∧
  ∃ ids, column "ncbi_taxid" tsv = Some (of_ints ids) ∧
    (missing_in ncbi ids ≠ ∅ ∨ extra_in ncbi ids = ∅ →
     ∃ final, column "taxon_tree" tsv' = Some (of_ints final) ∧
              length final = length ids ∧ tree = tree_of ncbi final).
Proof.
  intros Hrun.
  destruct (reconcile_frame _ _ _ _ _ _ Hrun) as (ids & Hc & Hf & Ht).
  split; [by apply Hf|]. split; [exact Hf|]. by exists ids.
Qed.

Lemma ncbi_taxid_untouched_witness :
  column "ncbi_taxid"
    (with_column "taxon_tree" (of_ints [102; 5]%Z) (drop_gi Samples.tsv))
  = column "ncbi_taxid" (drop_gi Samples.tsv).
Proof.
  refine (proj1 (ncbi_taxid_untouched Samples.ncbi_shallow (drop_gi Samples.tsv)
                   _ [] _ (tree_of Samples.ncbi_shallow [102; 5]%Z) _)).
  vm_compute. reflexivity.
Defined.

(** C3: in a substitution round the query maps every parent that was asked
    for and has at least one row in [species] to the least taxid among its
    rows, and no other parent; the column written to [taxon_tree] has, row
    by row, the descendant of the taxid where the mapping has one and the
    taxid itself where it has none. *)
Theorem first_descendant_substitution (ncbi : NCBITaxa) (src : string)
    (tsv tsv' : DataFrame) (missing missing' : gset string) (msg : string)
    (tr tr' : list event) (tree : Tree) (col : list Z) :
  column src tsv = Some (of_ints col) →
  substitute ncbi src tsv missing msg tr = (tr', Ret (tsv', tree, missing')) →
  ∃ parents : gset Z,
    (∀ p, p ∈ parents ↔ ∃ s, s ∈ missing ∧ int s = Some p) ∧
    let descendants := get_first_descendants ncbi parents in
    (∀ p d, descendants !! p = Some d ↔
            p ∈ parents ∧ d ∈ children ncbi p ∧
            ∀ c, c ∈ children ncbi p → (d ≤ c)%Z) ∧
    (∀ p, p ∈ parents → children ncbi p ≠ [] → is_Some (descendants !! p)) ∧
    ∃ new, column "taxon_tree" tsv' = Some (of_ints new) ∧
           length new = length col ∧
           ∀ i z, col !! i = Some z →
                  new !! i = Some (default z (descendants !! z)).
Proof.
  intros Hc Hrun. unfold substitute, to_int_set in Hrun.
  destruct (mapM int (elements missing)) as [l|] eqn:El;
    [|by revert Hrun; exec].
  exists (list_to_set l). split.
  { intros p. rewrite elem_of_list_to_set, <- (mapM_omap _ _ _ El).
    rewrite list_elem_of_omap. setoid_rewrite elem_of_elements. done. }
  cbv zeta. set (descendants := get_first_descendants ncbi (list_to_set l)) in *.
  assert (Hspec : ∀ p d, descendants !! p = Some d ↔
            p ∈ (list_to_set l : gset Z) ∧ d ∈ children ncbi p ∧
            ∀ c, c ∈ children ncbi p → (d ≤ c)%Z).
  { intros p d. subst descendants. rewrite get_first_descendants_lookup.
    destruct (decide (p ∈ (list_to_set l : gset Z))) as [Hp|Hp].
    - rewrite min_taxid_Some. tauto.
    - split; [done|]. by intros [? _]. }
  split; [exact Hspec|]. split.
  { intros p Hp Hne. subst descendants. rewrite get_first_descendants_lookup.
    rewrite decide_True by done.
    destruct (children ncbi p) as [|c cs]; [done|]. simpl. by eexists. }
  exists (replace_strict descendants col).
  revert Hrun. unfold taxid_column. rewrite Hc, ints_of_ints. exec.
  rewrite column_with_column_eq, ints_of_ints. unfold topology, validade_tree.
  exec. repeat case_bool_decide; cbv beta iota; intros [= _ <- _ _];
    (split; [apply column_with_column_eq|]);
    (split; [apply length_replace_strict|]);
    intros i z Hi; unfold replace_strict; by rewrite list_lookup_fmap, Hi.
Qed.

Lemma first_descendant_substitution_witness :
  ∃ parents : gset Z,
    (∀ p, p ∈ parents ↔ ∃ s, s ∈ ({["100"]} : gset string) ∧ int s = Some p) ∧
    let descendants := get_first_descendants Samples.ncbi_shallow parents in
    (∀ p d, descendants !! p = Some d ↔
            p ∈ parents ∧ d ∈ children Samples.ncbi_shallow p ∧
            ∀ c, c ∈ children Samples.ncbi_shallow p → (d ≤ c)%Z) ∧
    (∀ p, p ∈ parents → children Samples.ncbi_shallow p ≠ [] →
          is_Some (descendants !! p)) ∧
    ∃ new, column "taxon_tree"
             (with_column "taxon_tree" (of_ints [102; 5]%Z) Samples.tsv)
           = Some (of_ints new) ∧
           length new = length [100; 5]%Z ∧
           ∀ i z, [100; 5]%Z !! i = Some z →
                  new !! i = Some (default z (descendants !! z)).
Proof.
  refine (first_descendant_substitution Samples.ncbi_shallow "ncbi_taxid"
            Samples.tsv _ {["100"]} ∅ "" [] _
            (tree_of Samples.ncbi_shallow [102; 5]%Z) [100; 5]%Z eq_refl _).
  vm_compute. reflexivity.
Defined.

End BrmsClaims.

(** ** The join and the derived columns *)

Section JoinFacts.
Import Py Polars.







Lemma elem_of_matches (rk : Series) (k : option value) (j : nat) :
  j ∈ matches rk k ↔ ∃ v, k = Some v ∧ rk !! j = Some (Some v).
Proof.
  unfold matches. destruct k as [v|].
  - rewrite list_elem_of_fmap. split.
    + intros ([j' c] & -> & [Hc Hin]%list_elem_of_filter).
      apply elem_of_lookup_imap in Hin as (i & c' & [= -> ->] & Hl).
      simpl in Hc. subst c'. by exists v.
    + intros (v' & [= <-] & Hl). exists (j, Some v). split; [done|].
      apply list_elem_of_filter. split; [done|].
      apply elem_of_lookup_imap. by exists j, (Some v).
  - split; [by intros ?%elem_of_nil|]. by intros (v & [=] & _).
Qed.









Lemma join_left_Ret (key : string) (left right merged : DataFrame) :
  join_left key left right = Ret merged →
  ∃ lk rk,
    column key left = Some lk ∧ column key right = Some rk ∧
    merged =
      ((λ c, (c.1, (λ r : nat * option nat, take c.2 (Some r.1)) <$> join_rows lk rk))
         <$> left)
      ++ ((λ c, (right_name left c.1,
                 (λ r : nat * option nat, take c.2 r.2) <$> join_rows lk rk))
            <$> drop key right).
Proof.
  unfold join_left.
  destruct (column key left) as [lk|]; [|done].
  destruct (column key right) as [rk|]; [|done].
  cbv zeta. case_decide; [|done]. intros [= <-]. by exists lk, rk.
Qed.

Lemma columns_join_left (key : string) (left right merged : DataFrame) :
  join_left key left right = Ret merged →
  columns merged = columns left ++ (right_name left <$> columns (drop key right)).
Proof.
  intros (lk & rk & _ & _ & ->)%join_left_Ret.
  unfold columns. rewrite fmap_app, <- !list_fmap_compose. done.
Qed.

Lemma column_fmap (f : Series → Series) (name : string) (df : DataFrame) :
  column name ((λ c, (c.1, f c.2)) <$> df) = f <$> column name df.
Proof.
  induction df as [|[n s] df IH]; [done|].
  rewrite fmap_cons. simpl. by destruct (decide (n = name)).
Qed.

Lemma columns_fmap (f : Series → Series) (df : DataFrame) :
  columns ((λ c, (c.1, f c.2)) <$> df) = columns df.
Proof. unfold columns. by rewrite <- list_fmap_compose. Qed.

Lemma sort2_Ret (by1 by2 : string) (df out : DataFrame) :
  sort2 by1 by2 df = Ret out →
  ∃ idx, idx ≡ₚ seq 0 (height df) ∧
         out = (λ c, (c.1, (λ i, take c.2 (Some i)) <$> idx)) <$> df.
Proof.
  unfold sort2.
  destruct (column by1 df) as [k1|]; [|done].
  destruct (column by2 df) as [k2|]; [|done].
  intros [= <-]. exists (merge_sort (rows_le k1 k2) (seq 0 (height df))).
  split; [apply merge_sort_Permutation|done].
Qed.


Lemma append_right_ne (n : string) : n +:+ "_right" ≠ "GI".
Proof. by destruct n as [|a [|b [|c n]]]. Qed.

End JoinFacts.

Section JoinDeriveFacts.
Import Py Polars Brms.

Lemma elem_of_columns_with_column (name n : string) (s : Series) (df : DataFrame) :
  n ∈ columns (with_column name s df) ↔ n ∈ columns df ∨ n = name.
Proof.
  rewrite columns_with_column. case_decide as Hin.
  - split; [by left|]. intros [?| ->]; done.
  - rewrite elem_of_app, list_elem_of_singleton. done.
Qed.

(** What [join_and_derive] returns, step by step. *)
Lemma join_and_derive_Ret (igs tsv out : DataFrame) (an : string) :
  join_and_derive igs tsv an = Ret out →
  ∃ merged pol len log10_length idx,
    join_left an igs tsv = Ret merged ∧
    column "Polarity" merged = Some pol ∧
    column "Length" merged = Some len ∧
    mapM log10_cell len = Some log10_length ∧
    idx ≡ₚ seq 0 (height
                    (with_column "log10_length" log10_length
                       (with_column "polarity_bin"
                          (replace_cell polarity_mapping <$> pol) merged))) ∧
    out = (λ c, (c.1, (λ i, take c.2 (Some i)) <$> idx))
            <$> with_column "log10_length" log10_length
                  (with_column "polarity_bin"
                     (replace_cell polarity_mapping <$> pol) merged).
Proof.
  unfold join_and_derive.
  destruct (join_left an igs tsv) as [merged|c|e]; [|done|done].
  destruct (column "Polarity" merged) as [pol|] eqn:Epol; [|done].
  destruct (column "Length" merged) as [len|] eqn:Elen; [|done].
  destruct (mapM log10_cell len) as [l10|] eqn:El10; [|done].
  intros (idx & Hp & ->)%sort2_Ret.
  exists merged, pol, len, l10, idx. repeat (split; [done|]). done.
Qed.

Lemma columns_join_and_derive (igs tsv out : DataFrame) (an : string) (n : string) :
  join_and_derive igs tsv an = Ret out →
  n ∈ columns out ↔
    n ∈ columns igs ∨ n ∈ (right_name igs <$> columns (drop an tsv)) ∨
    n = "polarity_bin" ∨ n = "log10_length".
Proof.
  intros (merged & pol & len & l10 & idx & Hj & _ & _ & _ & _ & ->)%join_and_derive_Ret.
  rewrite (columns_fmap (λ s, (λ i, take s (Some i)) <$> idx)).
  rewrite !elem_of_columns_with_column.
  rewrite (columns_join_left _ _ _ _ Hj), elem_of_app. tauto.
Qed.

Lemma elem_of_columns_drop (name n : string) (df : DataFrame) :
  n ∈ columns (drop name df) ↔ n ∈ columns df ∧ n ≠ name.
Proof. rewrite columns_drop, list_elem_of_filter. tauto. Qed.

Lemma not_elem_of_columns_drop_gi (tsv : DataFrame) :
  "GI" ∉ columns (drop_gi tsv).
Proof.
  unfold drop_gi. case_bool_decide; [|done].
  rewrite elem_of_columns_drop. by intros [_ ?].
Qed.

Lemma elem_of_columns_drop_gi (n : string) (tsv : DataFrame) :
  n ∈ columns tsv → n ≠ "GI" → n ∈ columns (drop_gi tsv).
Proof.
  intros Hin Hne. unfold drop_gi. case_bool_decide; [|done].
  by apply elem_of_columns_drop.
Qed.

(** A run writes the table [out] exactly when the required columns are
    there, reconciliation of the metadata without [GI] returns, and the join
    of the IGS table with the table it returns gives [out]. *)
Lemma run_single_sink (env : Env) (tsv igs out : DataFrame) (an : string)
    (upd : bool) :
  SinkCsv out ∈ (run_single env tsv igs an upd []).1 ↔
  required_columns ⊆ columns tsv ∧
  ∃ tsv' tree tr',
    reconcile (if upd then ncbi_updated env else ncbi_local env) (drop_gi tsv)
      (update_log upd) = (tr', Ret (tsv', tree)) ∧
    join_and_derive igs tsv' an = Ret out.
Proof.
  rewrite <- elem_of_tables_written, run_single_tables.
  case_bool_decide as Hreq; [|split; [by intros ?%elem_of_nil|by intros [? _]]].
  destruct (reconcile _ _ _) as [tr' [[tsv' tree]|c|e]]; cbn [fst].
  - split.
    + intros Hin. split; [done|]. exists tsv', tree, tr'. split; [done|].
      destruct (join_and_derive igs tsv' an) as [o| |];
        [|by apply elem_of_nil in Hin|by apply elem_of_nil in Hin].
      by apply list_elem_of_singleton in Hin as ->.
    + intros (_ & t & tr & trx & [= <- <- <-] & ->).
      by apply list_elem_of_singleton.
  - split; [by intros ?%elem_of_nil|]. by intros (_ & ? & ? & ? & [=] & _).
  - split; [by intros ?%elem_of_nil|]. by intros (_ & ? & ? & ? & [=] & _).
Qed.

(** [reconcile] removes no column. *)
Lemma reconcile_keeps_columns (ncbi : Ete.NCBITaxa) (tsv tsv' : DataFrame)
    (tr tr' : list event) (tree : Ete.Tree) (n : string) :
  reconcile ncbi tsv tr = (tr', Ret (tsv', tree)) →
  n ∈ columns tsv → n ∈ columns tsv'.
Proof.
  intros Hrun Hin.
  destruct (reconcile_Ret_ints _ _ _ _ _ Hrun) as [ids Hc].
  destruct (decide (missing_in ncbi ids = ∅)) as [E0|E0].
  { rewrite (reconcile_no_missing ncbi tsv ids) in Hrun by done.
    injection Hrun as _ <- <-. case_bool_decide; [|done].
    apply elem_of_columns_with_column. by left. }
  destruct (decide (missing_in ncbi (substituted ncbi ids) = ∅)) as [E1|E1].
  { rewrite (reconcile_first_round ncbi tsv ids) in Hrun by done.
    injection Hrun as _ <- <-. apply elem_of_columns_with_column. by left. }
  rewrite (reconcile_second_round ncbi tsv ids) in Hrun by done.
  case_bool_decide as E2; [by injection Hrun|].
  injection Hrun as _ <- <-.
  apply elem_of_columns_with_column. left.
  apply elem_of_columns_with_column. by left.
Qed.

Lemma replace_cell_None mapping : replace_cell mapping None = None.
Proof. done. Qed.


End JoinDeriveFacts.

Section JoinClaims.
Import Py Polars Ete Brms SummaryIgs.

Ltac by_compute := apply (bool_decide_unpack _); vm_compute; exact I.






(** C10: a [GI] column of the metadata is dropped before any further
    processing. A run writes the table [out] exactly when reconciliation of
    the metadata without [GI] returns and the join with what it returns
    gives [out]. In a written table no column comes from the [GI] column of
    the metadata: every column is a column of the IGS table, one of the two
    derived columns, or a metadata column other than [GI] ([taxon_tree]
    included), under its name or under its name with [_right] when the IGS
    table has a column of that name; so the table has a column [GI] only if
    the IGS table had one. Every metadata column other than [GI] reaches the
    join as it is ([taxon_tree] being the column reconciliation writes) and
    is a column of the written table. *)
Theorem gi_dropped (env : Env) (tsv igs out : DataFrame) (an : string)
    (upd : bool) :
  let ncbi := if upd then ncbi_updated env else ncbi_local env in
  let run := run_single env tsv igs an upd [] in
  (SinkCsv out ∈ run.1 ↔
     required_columns ⊆ columns tsv ∧
     ∃ tsv' tree tr',
       reconcile ncbi (drop_gi tsv) (update_log upd) = (tr', Ret (tsv', tree)) ∧
       join_and_derive igs tsv' an = Ret out) ∧
  (SinkCsv out ∈ run.1 →
     (∀ n, n ∈ columns out →
        n ∈ columns igs ∨ n = "polarity_bin" ∨ n = "log10_length" ∨
        ∃ name, n = right_name igs name ∧ name ≠ "GI" ∧ name ≠ an ∧
                (name ∈ columns tsv ∨ name = "taxon_tree")) ∧
     ("GI" ∈ columns out → "GI" ∈ columns igs) ∧
     (∀ name, name ∈ columns tsv → name ≠ "GI" → name ≠ an →
              right_name igs name ∈ columns out) ∧
     ∃ tsv', join_and_derive igs tsv' an = Ret out ∧
       ("GI" ∉ columns tsv') ∧
       ∀ name, name ≠ "GI" → name ≠ "taxon_tree" →
               column name tsv' = column name tsv).
Proof.
  intros ncbi run. split; [apply run_single_sink|].
  intros (Hreq & tsv' & tree & tr' & Hrun & Hout)%run_single_sink.
  destruct (reconcile_frame _ _ _ _ _ _ Hrun) as (ids & _ & Hf & _).
  assert (Hgi : "GI" ∉ columns tsv').
  { rewrite <- column_is_Some, Hf by done. rewrite column_is_Some.
    apply not_elem_of_columns_drop_gi. }
  assert (Hcols : ∀ n, n ∈ columns out →
    n ∈ columns igs ∨ n = "polarity_bin" ∨ n = "log10_length" ∨
    ∃ name, n = right_name igs name ∧ name ≠ "GI" ∧ name ≠ an ∧
            (name ∈ columns tsv ∨ name = "taxon_tree")).
  { intros n Hin. apply (columns_join_and_derive _ _ _ _ _ Hout) in Hin
      as [Hin|[Hin|[Hin|Hin]]]; [by left| |by right; left|by right; right; left].
    right. right. right.
    apply list_elem_of_fmap in Hin as (name & -> & Hin).
    apply elem_of_columns_drop in Hin as [Hin Han].
    exists name. split; [done|].
    split; [by intros ->|]. split; [done|].
    destruct (decide (name = "taxon_tree")) as [->|Ht]; [by right|left].
    rewrite <- column_is_Some, Hf in Hin by done.
    rewrite column_is_Some in Hin. unfold drop_gi in Hin.
    case_bool_decide; [|done]. by apply elem_of_columns_drop in Hin as [? _]. }
  split; [exact Hcols|]. split; [|split].
  - intros Hin. destruct (Hcols _ Hin) as [?|[?|[?|(name & Hn & Hne & _)]]];
      [done|done|done|].
    unfold right_name in Hn. case_decide.
    + symmetry in Hn. by apply append_right_ne in Hn.
    + by subst name.
  - intros name Hin Hne Han.
    apply (columns_join_and_derive _ _ _ _ _ Hout). right. left.
    apply list_elem_of_fmap_2, elem_of_columns_drop. split; [|done].
    eapply reconcile_keeps_columns; [exact Hrun|].
    by apply elem_of_columns_drop_gi.
  - exists tsv'. split; [exact Hout|]. split; [exact Hgi|].
    intros name Hn Ht. by rewrite Hf, column_drop_gi.
Qed.

Lemma gi_dropped_witness :
  "GI" ∈ columns Samples.tsv ∧
  ∃ out,
    SinkCsv out ∈ (run_single (Samples.env Samples.ncbi_shallow) Samples.tsv
                     Samples.igs "AN" false []).1 ∧
    ("GI" ∉ columns out) ∧ "Species" ∈ columns out.
Proof.
  split; [by_compute|].
  assert (H : ∃ out tr,
    (run_single (Samples.env Samples.ncbi_shallow) Samples.tsv Samples.igs
       "AN" false []).1 = tr ∧ SinkCsv out ∈ tr).
  { eexists _, _. split; [vm_compute; reflexivity|].
    repeat first [apply list_elem_of_here | apply list_elem_of_further]. }
  destruct H as (out & tr & <- & Hin).
  exists out. split; [exact Hin|].
  destruct (gi_dropped (Samples.env Samples.ncbi_shallow) Samples.tsv
              Samples.igs out "AN" false) as [_ Hc].
  destruct (Hc Hin) as (_ & Hgi & Hkeep & _).
  split.
  - intros Hin'. apply Hgi in Hin'. revert Hin'. by_compute.
  - apply (Hkeep "Species"); by_compute.
Defined.

End JoinClaims.

(** * Further properties of the code *)

(** ** Validation, the descendant query and the substitution *)

Section ReconcilerProperties.
Import Py Polars Ete Brms.

Ltac by_compute := apply (bool_decide_unpack _); vm_compute; exact I.

Lemma run_single_schema_error (env : Env) (tsv igs : DataFrame)
    (an : string) (upd : bool) (tr : list event) :
  ¬ required_columns ⊆ columns tsv →
  run_single env tsv igs an upd tr
  = (tr ++ [Log ERROR "TSV file is missing required columns" ∅], SysExit 1).
Proof.
  intros Hreq. unfold run_single.
  rewrite bool_decide_eq_false_2 by done. cbn [negb]. by exec.
Qed.

(** X1: a table without one of the required columns ends the run at once:
    one error record, exit status 1, no call of the gateway and nothing
    written. *)
Theorem schema_error_exits_first (env : Env) (tsv igs : DataFrame)
    (an : string) (upd : bool) (tr : list event) :
  ¬ required_columns ⊆ columns tsv →
  run_single env tsv igs an upd tr
  = (tr ++ [Log ERROR "TSV file is missing required columns" ∅], SysExit 1).
Proof. apply run_single_schema_error. Qed.

Lemma schema_error_exits_first_witness :
  run_single (Samples.env Samples.ncbi_shallow) (drop "Species" Samples.tsv)
    Samples.igs "AN" true []
  = ([Log ERROR "TSV file is missing required columns" ∅], SysExit 1).
Proof.
  apply (schema_error_exits_first (Samples.env Samples.ncbi_shallow)
           (drop "Species" Samples.tsv) Samples.igs "AN" true []).
  by_compute.
Defined.

(** X2: [validade_tree] always returns; the missing taxa are taxa that are
    not leaves, the extra taxa are leaves that are not taxa, and it logs
    nothing exactly when the leaves of the tree are the taxa, in which case
    both sets are empty. *)
Theorem validade_tree_exact (tree : Tree) (taxa : gset string) (tr : list event) :
  ∃ lg missing extra,
    validade_tree tree taxa tr = (tr ++ lg, Ret (missing, extra)) ∧
    (∀ s, s ∈ missing ↔ s ∈ taxa ∧ s ∉ leaves tree) ∧
    (∀ s, s ∈ extra ↔ s ∈ leaves tree ∧ s ∉ taxa) ∧
    (lg = [] ↔ taxa = list_to_set (leaves tree)) ∧
    (lg = [] ↔ missing = ∅ ∧ extra = ∅) ∧
    (Log WARNING "Taxa missing in tree" missing ∈ lg ↔ missing ≠ ∅) ∧
    (Log ERROR "Extra taxa in tree" extra ∈ lg ↔ extra ≠ ∅).
Proof.
  unfold validade_tree. exec.
  set (L := list_to_set (leaves tree) : gset string).
  assert (Heq : taxa = L ↔ taxa ∖ L = ∅ ∧ L ∖ taxa = ∅).
  { split.
    - intros ->. split; apply difference_diag_L.
    - intros [H1 H2]. apply set_eq. intros s.
      destruct (decide (s ∈ taxa)) as [Ht|Ht], (decide (s ∈ L)) as [Hl|Hl];
        try tauto.
      + assert (s ∈ taxa ∖ L) as Hs by set_solver. rewrite H1 in Hs. set_solver.
      + assert (s ∈ L ∖ taxa) as Hs by set_solver. rewrite H2 in Hs. set_solver. }
  assert (Hm : ∀ s, s ∈ taxa ∖ L ↔ s ∈ taxa ∧ s ∉ leaves tree).
  { intros s. subst L. rewrite elem_of_difference, elem_of_list_to_set. done. }
  assert (He : ∀ s, s ∈ L ∖ taxa ↔ s ∈ leaves tree ∧ s ∉ taxa).
  { intros s. subst L. rewrite elem_of_difference, elem_of_list_to_set. done. }
  destruct (decide (taxa ∖ L = ∅)) as [E1|E1];
    destruct (decide (L ∖ taxa = ∅)) as [E2|E2].
  - rewrite (bool_decide_eq_false_2 (taxa ∖ L ≠ ∅)) by auto.
    rewrite (bool_decide_eq_false_2 (L ∖ taxa ≠ ∅)) by auto.
    exists [], (taxa ∖ L), (L ∖ taxa). rewrite app_nil_r.
    split; [done|]. split; [done|]. split; [done|].
    split; [tauto|]. split; [tauto|].
    split; (split; [by intros ?%elem_of_nil|done]).
  - rewrite (bool_decide_eq_false_2 (taxa ∖ L ≠ ∅)) by auto.
    rewrite (bool_decide_eq_true_2 (L ∖ taxa ≠ ∅)) by done.
    eexists [_], (taxa ∖ L), (L ∖ taxa).
    split; [done|]. split; [done|]. split; [done|].
    split; [split; [done|tauto]|]. split; [split; [done|tauto]|].
    split; [split; [|done]|split; [done|intros _; by left]].
    intros [=]%list_elem_of_singleton.
  - rewrite (bool_decide_eq_true_2 (taxa ∖ L ≠ ∅)) by done.
    rewrite (bool_decide_eq_false_2 (L ∖ taxa ≠ ∅)) by auto.
    eexists [_], (taxa ∖ L), (L ∖ taxa).
    split; [done|]. split; [done|]. split; [done|].
    split; [split; [done|tauto]|]. split; [split; [done|tauto]|].
    split; [split; [done|intros _; by left]|split; [|done]].
    intros [=]%list_elem_of_singleton.
  - rewrite (bool_decide_eq_true_2 (taxa ∖ L ≠ ∅)) by done.
    rewrite (bool_decide_eq_true_2 (L ∖ taxa ≠ ∅)) by done.
    eexists [_; _], (taxa ∖ L), (L ∖ taxa).
    split; [by rewrite <- app_assoc|]. split; [done|]. split; [done|].
    split; [split; [done|tauto]|]. split; [split; [done|tauto]|].
    split; [split; [done|intros _; by left]|].
    split; [done|intros _; right; by left].
Qed.

Lemma permutation_min_taxid (l1 l2 : list Z) :
  l1 ≡ₚ l2 → min_taxid l1 = min_taxid l2.
Proof.
  intros Hp. apply option_eq. intros d. rewrite !min_taxid_Some.
  by setoid_rewrite Hp.
Qed.

(** X3: the descendant mapping depends on the rows of [species], not on
    their order: two databases whose tables hold the same rows give the same
    mapping. *)
Theorem first_descendants_row_order (ncbi1 ncbi2 : NCBITaxa) (taxids : gset Z) :
  species ncbi1 ≡ₚ species ncbi2 →
  get_first_descendants ncbi1 taxids = get_first_descendants ncbi2 taxids.
Proof.
  intros Hp. apply map_eq. intros p.
  rewrite !get_first_descendants_lookup.
  case_decide; [|done]. apply permutation_min_taxid.
  unfold children. by rewrite Hp.
Qed.

Lemma first_descendants_row_order_witness :
  get_first_descendants Samples.ncbi_shallow {[100%Z]}
  = get_first_descendants
      {| species := reverse Samples.taxonomy; get_topology := Samples.star [] [] |}
      {[100%Z]}.
Proof.
  apply (first_descendants_row_order Samples.ncbi_shallow
           {| species := reverse Samples.taxonomy;
              get_topology := Samples.star [] [] |}).
  symmetry. apply reverse_Permutation.
Defined.

(** The int() conversion of a validated missing set cannot fail, and the
    column a round writes differs from its source only at missing taxa. *)
Lemma substituted_lookup (ncbi : NCBITaxa) (ids : list Z) (i : nat) (z : Z) :
  ids !! i = Some z →
  substituted ncbi ids !! i
  = Some (if decide (str z ∈ missing_in ncbi ids)
          then default z (min_taxid (children ncbi z)) else z).
Proof.
  intros Hi. unfold substituted, replace_strict.
  rewrite list_lookup_fmap, Hi. simpl. f_equal.
  rewrite get_first_descendants_lookup.
  destruct (decide (z ∈ missing_ints ncbi ids)) as [Hz|Hz];
    rewrite elem_of_missing_ints in Hz.
  - by rewrite decide_True.
  - by rewrite decide_False.
Qed.

(** X4: a substitution round on the missing taxa of a validation never
    raises; it leaves every taxid that is a leaf of the tree as it is, and a
    taxid it changes was missing and is replaced by the least of its rows in
    [species]. *)
Theorem substitution_touches_only_missing (ncbi : NCBITaxa) (src : string)
    (tsv : DataFrame) (ids : list Z) (msg : string) (tr : list event) :
  column src tsv = Some (of_ints ids) →
  ∃ tr' tsv' tree missing' new,
    substitute ncbi src tsv (missing_in ncbi ids) msg tr
    = (tr', Ret (tsv', tree, missing')) ∧
    column "taxon_tree" tsv' = Some (of_ints new) ∧
    ∀ i z, ids !! i = Some z →
      ∃ d, new !! i = Some d ∧
        (str z ∉ missing_in ncbi ids → d = z) ∧
        (d ≠ z → str z ∈ missing_in ncbi ids ∧ d ∈ children ncbi z ∧
                 ∀ c, c ∈ children ncbi z → (d ≤ c)%Z).
Proof.
  intros Hc. rewrite (substitute_run ncbi src tsv ids msg tr Hc).
  eexists _, _, _, _, (substituted ncbi ids).
  split; [done|]. split; [apply column_with_column_eq|].
  intros i z Hi. rewrite (substituted_lookup ncbi ids i z Hi).
  eexists. split; [done|]. case_decide as Hz; [|done].
  split; [done|].
  destruct (min_taxid (children ncbi z)) as [d|] eqn:Ed; simpl; [|done].
  apply min_taxid_Some in Ed as [Hd Hmin]. intros _. done.
Qed.

Lemma substitution_touches_only_missing_witness :
  ∃ tr' tsv' tree missing' new,
    substitute Samples.ncbi_shallow "ncbi_taxid" Samples.tsv
      (missing_in Samples.ncbi_shallow [100; 5]%Z) "" []
    = (tr', Ret (tsv', tree, missing')) ∧
    column "taxon_tree" tsv' = Some (of_ints new) ∧
    ∀ i z, [100; 5]%Z !! i = Some z →
      ∃ d, new !! i = Some d ∧
        (str z ∉ missing_in Samples.ncbi_shallow [100; 5]%Z → d = z) ∧
        (d ≠ z → str z ∈ missing_in Samples.ncbi_shallow [100; 5]%Z ∧
                 d ∈ children Samples.ncbi_shallow z ∧
                 ∀ c, c ∈ children Samples.ncbi_shallow z → (d ≤ c)%Z).
Proof.
  exact (substitution_touches_only_missing Samples.ncbi_shallow "ncbi_taxid"
           Samples.tsv [100; 5]%Z "" [] eq_refl).
Defined.

(** X5: when [species] has no row below any of the missing taxa, the two
    substitution rounds change nothing: the same column is validated three
    times and the run ends in exit status 1 without writing a tree. *)
Theorem no_descendant_gives_up (env : Env) (tsv igs : DataFrame) (an : string)
    (upd : bool) (ids : list Z) :
  required_columns ⊆ columns tsv →
  column "ncbi_taxid" tsv = Some (of_ints ids) →
  let ncbi := if upd then ncbi_updated env else ncbi_local env in
  let run := run_single env tsv igs an upd [] in
  missing_in ncbi ids ≠ ∅ →
  (∀ z, str z ∈ missing_in ncbi ids → children ncbi z = []) →
  run.2 = SysExit 1 ∧ topologies run.1 = [ids; ids; ids] ∧
  trees_written run.1 = [].
Proof.
  intros Hreq Hc ncbi run Hm Hno.
  assert (Hsame : substituted ncbi ids = ids).
  { apply list_eq. intros i. destruct (ids !! i) as [z|] eqn:Hi.
    - rewrite (substituted_lookup ncbi ids i z Hi). f_equal.
      case_decide as Hz; [|done]. by rewrite (Hno z Hz).
    - unfold substituted, replace_strict. by rewrite list_lookup_fmap, Hi. }
  pose proof (run_second_round env tsv igs an upd ids Hreq Hc) as H2.
  cbv zeta in H2. fold ncbi in H2. fold run in H2.
  rewrite !Hsame in H2.
  destruct (H2 Hm Hm) as (Htop & _ & _ & Hexit).
  destruct (Hexit Hm) as [Hw Hr]. done.
Qed.

Lemma no_descendant_gives_up_witness :
  (run_single
     (Samples.env {| species := []; get_topology := Samples.star [100%Z] [] |})
     Samples.tsv Samples.igs "AN" false []).2 = SysExit 1.
Proof.
  refine (proj1 (no_descendant_gives_up
            (Samples.env {| species := []; get_topology := Samples.star [100%Z] [] |})
            Samples.tsv Samples.igs "AN" false [100; 5]%Z
            ltac:(by_compute) eq_refl ltac:(by_compute) _)).
  intros z _. reflexivity.
Defined.

End ReconcilerProperties.

(** ** How a run ends *)

Section RunProperties.
Import Py Polars Ete Brms.

Ltac by_compute := apply (bool_decide_unpack _); vm_compute; exact I.

Local Abbreviation still_missing :=
  (Log ERROR "Some taxa are still missing in the tree after second replacement, we give up." ∅).

Lemma trees_written_cons (e : event) (tr : list event) :
  trees_written (e :: tr)
  = match e with TreeWrite t => [t] | _ => [] end ++ trees_written tr.
Proof. by destruct e. Qed.

Lemma reconcile_exit (ncbi : NCBITaxa) (tsv : DataFrame) (tr tr' : list event)
    (c : Z) :
  reconcile ncbi tsv tr = (tr', SysExit c) →
  c = 1%Z ∧ still_missing ∈ tr' ∧ trees_written tr' = trees_written tr.
Proof.
  intros Hrun.
  destruct (column "ncbi_taxid" tsv) as [s|] eqn:Hc;
    [|by revert Hrun; unfold reconcile, taxid_column; rewrite Hc; exec].
  destruct (ints s) as [ids|] eqn:Hi;
    [|by revert Hrun; unfold reconcile, taxid_column; rewrite Hc, Hi; exec].
  apply ints_inv in Hi as ->.
  destruct (decide (missing_in ncbi ids = ∅)) as [E0|E0].
  { by rewrite (reconcile_no_missing ncbi tsv ids) in Hrun. }
  destruct (decide (missing_in ncbi (substituted ncbi ids) = ∅)) as [E1|E1].
  { by rewrite (reconcile_first_round ncbi tsv ids) in Hrun. }
  rewrite (reconcile_second_round ncbi tsv ids) in Hrun by done.
  case_bool_decide as E2; [|done].
  injection Hrun as <- <-. split; [done|]. split.
  - repeat first [apply list_elem_of_here | apply list_elem_of_further
                 | (apply elem_of_app; right)].
  - repeat rewrite ?trees_written_app, ?trees_written_cons,
      ?trees_written_validation_log.
    simpl. by rewrite app_nil_r.
Qed.

Lemma fit_exit_trace (env : Env) (tree : Tree) (tsv igs : DataFrame)
    (an : string) (tr tr' : list event) (c : Z) :
  fit env tree tsv igs an tr = (tr', SysExit c) →
  c = 1%Z ∧
  ∃ out, TreeWrite tree ∈ tr' ∧ SinkCsv out ∈ tr' ∧ Subprocess tree out ∈ tr' ∧
         WriteErrFile ∈ tr' ∧ Rscript env tree out ≠ 0%Z.
Proof.
  unfold fit. exec.
  destruct (join_and_derive igs tsv an) as [out|c'|e] eqn:E; cbv beta iota.
  - case_bool_decide as HR; cbv beta iota; [intros [=]|].
    intros [= <- <-]. split; [done|]. exists out.
    rewrite !elem_of_app, !list_elem_of_singleton. tauto.
  - by apply join_and_derive_no_exit in E.
  - intros [=].
Qed.

(** X6: a run exits only with status 1, and for one of three reasons: a
    required column is absent (nothing else is logged), taxa are still
    missing after the second round (no tree is written), or the model runner
    returned a non-zero status after the tree and the table were written and
    the model was run on exactly those. *)
Theorem exit_causes (env : Env) (tsv igs : DataFrame) (an : string)
    (upd : bool) (tr : list event) (c : Z) :
  run_single env tsv igs an upd [] = (tr, SysExit c) →
  c = 1%Z ∧
  ((¬ required_columns ⊆ columns tsv ∧
    tr = [Log ERROR "TSV file is missing required columns" ∅]) ∨
   (required_columns ⊆ columns tsv ∧ still_missing ∈ tr ∧ trees_written tr = []) ∨
   (required_columns ⊆ columns tsv ∧
    ∃ tree out, TreeWrite tree ∈ tr ∧ SinkCsv out ∈ tr ∧
                Subprocess tree out ∈ tr ∧ WriteErrFile ∈ tr ∧
                Rscript env tree out ≠ 0%Z)).
Proof.
  intros Hrun.
  destruct (decide (required_columns ⊆ columns tsv)) as [Hreq|Hreq].
  - rewrite run_single_run in Hrun by done.
    unfold mbind, M_bind in Hrun.
    destruct (reconcile _ (drop_gi tsv) (update_log upd)) as [tr1 [r| c1 |e]] eqn:Er.
    + apply fit_exit_trace in Hrun as [-> (out & H1 & H2 & H3 & H4 & H5)].
      split; [done|]. right. right. split; [done|]. by exists r.2, out.
    + injection Hrun as <- <-.
      apply reconcile_exit in Er as (-> & Hg & Hw).
      split; [done|]. right. left. split; [done|]. split; [done|].
      rewrite Hw. apply update_log_quiet.
    + done.
  - rewrite run_single_schema_error in Hrun by done.
    injection Hrun as <- <-. split; [done|]. by left.
Qed.

Lemma exit_causes_witness :
  still_missing ∈ (run_single (Samples.env Samples.ncbi_deep) Samples.tsv Samples.igs
               "AN" false []).1.
Proof.
  destruct (exit_causes (Samples.env Samples.ncbi_deep) Samples.tsv Samples.igs
              "AN" false
              (run_single (Samples.env Samples.ncbi_deep) Samples.tsv
                 Samples.igs "AN" false []).1 1)
    as (_ & [[Hn _]|[(_ & Hg & _)|(_ & tree & out & Hw & _)]]).
  - vm_compute. reflexivity.
  - exfalso. apply Hn. by_compute.
  - exact Hg.
  - exfalso. revert Hw. vm_compute.
    intros Hw. repeat (apply elem_of_cons in Hw as [[=]|Hw]).
    by apply elem_of_nil in Hw.
Defined.

Lemma join_left_missing_key (key : string) (left right : DataFrame) :
  key ∉ columns left ∨ key ∉ columns right →
  join_left key left right = Raise "ColumnNotFoundError".
Proof.
  intros H. unfold join_left.
  destruct (column key left) as [lk|] eqn:El;
    destruct (column key right) as [rk|] eqn:Er; try done.
  exfalso. destruct H as [H|H]; apply H, column_is_Some; by eexists.
Qed.

Lemma fit_missing_key (env : Env) (tree : Tree) (tsv igs : DataFrame)
    (an : string) (tr : list event) :
  an ∉ columns igs ∨ an ∉ columns tsv →
  fit env tree tsv igs an tr
  = (tr ++ [TreeWrite tree; Log INFO "Preparing IGS data for BRMS fitting..." ∅],
     Raise "ColumnNotFoundError").
Proof.
  intros H. unfold fit, join_and_derive.
  rewrite (join_left_missing_key an igs tsv H). exec.
  by rewrite <- app_assoc.
Qed.

(** X7: when the accession column is absent from the IGS table or from the
    metadata, the join raises after the tree has been written: no table is
    written and the model is not run. *)
Theorem missing_key_after_tree (env : Env) (tree : Tree) (tsv igs : DataFrame)
    (an : string) (tr : list event) :
  an ∉ columns igs ∨ an ∉ columns tsv →
  fit env tree tsv igs an tr
  = (tr ++ [TreeWrite tree; Log INFO "Preparing IGS data for BRMS fitting..." ∅],
     Raise "ColumnNotFoundError").
Proof. apply fit_missing_key. Qed.

Lemma missing_key_after_tree_witness :
  fit (Samples.env Samples.ncbi_shallow) (Node "1" []) Samples.tsv Samples.igs
    "accession" []
  = ([TreeWrite (Node "1" []);
      Log INFO "Preparing IGS data for BRMS fitting..." ∅],
     Raise "ColumnNotFoundError").
Proof.
  apply (missing_key_after_tree (Samples.env Samples.ncbi_shallow) (Node "1" [])
           Samples.tsv Samples.igs "accession" []).
  left. by_compute.
Defined.

(** X8: [GI] cannot serve as the accession column. The column is dropped
    from the metadata before the join, so no run with [an_column = "GI"]
    returns or writes a table, whatever the two tables hold; a run that
    writes the tree raises in the join, and when reconciliation of the
    metadata returns, the run writes its tree, logs the preparation of the
    table and raises. *)
Theorem gi_is_no_accession_column (env : Env) (tsv igs : DataFrame)
    (upd : bool) :
  let ncbi := if upd then ncbi_updated env else ncbi_local env in
  let run := run_single env tsv igs "GI" upd [] in
  run.2 ≠ Ret () ∧
  tables_written run.1 = [] ∧
  (∀ tree, TreeWrite tree ∈ run.1 → run.2 = Raise "ColumnNotFoundError") ∧
  (required_columns ⊆ columns tsv →
   ∀ tr' tsv' tree,
     reconcile ncbi (drop_gi tsv) (update_log upd) = (tr', Ret (tsv', tree)) →
     run = (tr' ++ [TreeWrite tree;
                    Log INFO "Preparing IGS data for BRMS fitting..." ∅],
            Raise "ColumnNotFoundError")).
Proof.
  intros ncbi run. subst run.
  destruct (decide (required_columns ⊆ columns tsv)) as [Hreq|Hreq].
  - rewrite run_single_run by done. fold ncbi. unfold mbind, M_bind.
    pose proof (quiet_reconcile ncbi (drop_gi tsv) (update_log upd)) as [Ht Hs].
    rewrite trees_written_update_log in Ht.
    rewrite tables_written_update_log in Hs.
    destruct (reconcile ncbi (drop_gi tsv) (update_log upd))
      as [tr' [[tsv' tree]|c|e]] eqn:Hrun; cbn [fst snd] in *.
    + assert (Hgi : "GI" ∉ columns tsv').
      { destruct (reconcile_frame _ _ _ _ _ _ Hrun) as (ids & _ & Hf & _).
        rewrite <- column_is_Some, Hf by done. rewrite column_is_Some.
        apply not_elem_of_columns_drop_gi. }
      rewrite (fit_missing_key env tree tsv' igs "GI" tr') by (by right).
      cbn [fst snd].
      split; [done|]. split.
      { rewrite tables_written_app, Hs. done. }
      split; [done|]. by intros _ ? ? ? [= <- <- <-].
    + split; [done|]. split; [done|]. split; [|by intros _ ? ? ? [=]].
      intros tree Hin%elem_of_trees_written. rewrite Ht in Hin.
      by apply elem_of_nil in Hin.
    + split; [done|]. split; [done|]. split; [|by intros _ ? ? ? [=]].
      intros tree Hin%elem_of_trees_written. rewrite Ht in Hin.
      by apply elem_of_nil in Hin.
  - rewrite run_single_schema_error by done. cbn [fst snd].
    split; [done|]. split; [done|]. split; [|done].
    intros tree Hin. apply list_elem_of_singleton in Hin. discriminate.
Qed.

(** A run on the sample tables, the accession column of the IGS table
    named [GI]: the tree is written and the join raises. *)
Lemma gi_is_no_accession_column_witness :
  "GI" ∈ columns Samples.tsv ∧ "GI" ∈ columns Samples.igs_by_gi ∧
  trees_written
    (run_single (Samples.env Samples.ncbi_shallow) Samples.tsv
       Samples.igs_by_gi "GI" false []).1 ≠ [] ∧
  (run_single (Samples.env Samples.ncbi_shallow) Samples.tsv
     Samples.igs_by_gi "GI" false []).2 = Raise "ColumnNotFoundError".
Proof.
  destruct (gi_is_no_accession_column (Samples.env Samples.ncbi_shallow)
              Samples.tsv Samples.igs_by_gi false) as (_ & _ & Ht & _).
  assert (H : ∃ tree, TreeWrite tree ∈
    (run_single (Samples.env Samples.ncbi_shallow) Samples.tsv
       Samples.igs_by_gi "GI" false []).1).
  { eexists. vm_compute.
    repeat first [apply list_elem_of_here | apply list_elem_of_further]. }
  destruct H as [tree H].
  split; [by_compute|]. split; [by_compute|]. split.
  - intros E. apply elem_of_trees_written in H. rewrite E in H.
    by apply elem_of_nil in H.
  - exact (Ht tree H).
Defined.

End RunProperties.

(** ** The written table *)

Section TableProperties.
Import Py Polars Ete Brms.

(** X9: a row of the joined table that has a partner carries the cells of a
    metadata row with the same, non-null accession; its IGS cells are those
    of its IGS row. *)
Theorem left_join_matched (key : string) (igs tsv merged : DataFrame) :
  join_left key igs tsv = Ret merged →
  ∃ lk rk, column key igs = Some lk ∧ column key tsv = Some rk ∧
    ∀ p i j, join_rows lk rk !! p = Some (i, Some j) →
      (∃ v, lk !! i = Some (Some v) ∧ rk !! j = Some (Some v)) ∧
      (∀ n s, (n, s) ∈ igs →
         ∃ s', (n, s') ∈ merged ∧ s' !! p = Some (take s (Some i))) ∧
      (∀ n s, (n, s) ∈ drop key tsv →
         ∃ s', (right_name igs n, s') ∈ merged ∧ s' !! p = Some (take s (Some j))).
Proof.
  intros (lk & rk & Hlk & Hrk & ->)%join_left_Ret.
  exists lk, rk. split; [done|]. split; [done|].
  intros p i j Hp. split; [|split].
  - apply list_elem_of_lookup_2 in Hp.
    apply list_elem_of_bind in Hp as ([i' k] & Hin & Hik).
    apply elem_of_lookup_imap in Hik as (i0 & k' & [= -> ->] & Hk).
    unfold partners in Hin. cbn [fst snd] in Hin.
    destruct (matches rk k') as [|j0 js] eqn:Em.
    + apply list_elem_of_singleton in Hin. done.
    + apply list_elem_of_fmap in Hin as (j' & [= -> ->] & Hj).
      rewrite <- Em in Hj. apply elem_of_matches in Hj as (v & -> & Hv).
      by exists v.
  - intros n s Hin. eexists. split.
    + apply elem_of_app. left. apply list_elem_of_fmap. by exists (n, s).
    + simpl. by rewrite list_lookup_fmap, Hp.
  - intros n s Hin. eexists. split.
    + apply elem_of_app. right. apply list_elem_of_fmap. by exists (n, s).
    + simpl. by rewrite list_lookup_fmap, Hp.
Qed.

Lemma left_join_matched_witness :
  ∃ lk rk, column "AN" Samples.igs = Some lk ∧ column "AN" Samples.tsv = Some rk ∧
    ∀ p i j, join_rows lk rk !! p = Some (i, Some j) →
      ∃ v, lk !! i = Some (Some v) ∧ rk !! j = Some (Some v).
Proof.
  assert (Hj : ∃ merged, join_left "AN" Samples.igs Samples.tsv = Ret merged)
    by (eexists; vm_compute; reflexivity).
  destruct Hj as [merged Hj].
  destruct (left_join_matched "AN" Samples.igs Samples.tsv merged Hj)
    as (lk & rk & Hlk & Hrk & H).
  exists lk, rk. split; [exact Hlk|]. split; [exact Hrk|].
  intros p i j Hp. by destruct (H p i j Hp) as [Hv _].
Defined.

(** X10: the columns of the written table are those of the IGS table, then
    those of the metadata without the accession column (with [_right] added
    to a name the IGS table already has), then [polarity_bin] and
    [log10_length]; no name occurs twice. *)
Theorem written_table_columns (igs tsv out : DataFrame) (an : string) :
  join_and_derive igs tsv an = Ret out →
  let base := columns igs ++ (right_name igs <$> columns (drop an tsv)) in
  "polarity_bin" ∉ base → "log10_length" ∉ base →
  columns out = base ++ ["polarity_bin"; "log10_length"] ∧ NoDup (columns out).
Proof.
  intros (merged & pol & len & l10 & idx & Hj & _ & _ & _ & _ & ->)%join_and_derive_Ret.
  intros base Hp Hl.
  rewrite (columns_fmap (λ s, (λ i, take s (Some i)) <$> idx)).
  pose proof (columns_join_left _ _ _ _ Hj) as Hcols. fold base in Hcols.
  rewrite !columns_with_column, Hcols.
  rewrite (decide_False (P := "polarity_bin" ∈ base)) by done.
  rewrite decide_False
    by (rewrite elem_of_app, list_elem_of_singleton; intros [?|?]; done).
  rewrite <- app_assoc. split; [done|].
  assert (Hnd : NoDup base).
  { rewrite <- Hcols. unfold join_left in Hj.
    destruct (column an igs); [|done]. destruct (column an tsv); [|done].
    cbv zeta in Hj. case_decide as Hnd; [|done]. by injection Hj as <-. }
  apply NoDup_app. split; [done|]. split.
  - intros x Hx [->|[->|?%elem_of_nil]%elem_of_cons]%elem_of_cons; done.
  - apply NoDup_cons. split; [|apply NoDup_singleton].
    by intros [=]%list_elem_of_singleton.
Qed.

Lemma written_table_columns_witness :
  ∃ out, join_and_derive Samples.igs Samples.tsv "AN" = Ret out ∧
    columns out
    = ["ID"; "AN"; "Polarity"; "Length"; "GI"; "ncbi_taxid"; "Species";
       "ncbi_name"; "Genome_length"; "polarity_bin"; "log10_length"].
Proof.
  assert (Hj : ∃ out, join_and_derive Samples.igs Samples.tsv "AN" = Ret out)
    by (eexists; vm_compute; reflexivity).
  destruct Hj as [out Hj]. exists out. split; [exact Hj|].
  refine (proj1 (written_table_columns Samples.igs Samples.tsv out "AN" Hj _ _)).
  - apply (bool_decide_unpack _). vm_compute. exact I.
  - apply (bool_decide_unpack _). vm_compute. exact I.
Defined.

Lemma float_leb_total (x y : float64) : float_leb x y = true ∨ float_leb y x = true.
Proof.
  destruct x as [|[]|d q], y as [|[]|e r]; simpl; auto.
  destruct (decide (d = e)) as [->|Hne].
  - rewrite decide_True by done. rewrite !QArith_base.Qle_bool_iff.
    destruct (QArith_base.Qlt_le_dec (Qcanon.this r) (Qcanon.this q)) as [H|H].
    + right. by apply QArith_base.Qlt_le_weak.
    + by left.
  - rewrite (decide_False (P := e = d)) by congruence.
    rewrite !bool_decide_eq_true. lia.
Qed.

Lemma float_leb_trans (x y z : float64) :
  float_leb x y = true → float_leb y z = true → float_leb x z = true.
Proof.
  destruct x as [|[]|d q], y as [|[]|e r], z as [|[]|f s]; simpl; try done.
  repeat case_decide; subst; try done;
    rewrite ?bool_decide_eq_true, ?QArith_base.Qle_bool_iff;
    try lia; try apply QArith_base.Qle_trans.
Qed.

Lemma value_leb_total (a b : value) : value_leb a b = true ∨ value_leb b a = true.
Proof.
  destruct a as [z| |], b as [z0| |]; simpl; auto;
    try apply str_leb_total; try apply float_leb_total.
  destruct (decide (z ≤ z0)%Z);
    [left; by apply bool_decide_eq_true_2|right; apply bool_decide_eq_true_2; lia].
Qed.

Lemma value_leb_trans (a b c : value) :
  value_leb a b = true → value_leb b c = true → value_leb a c = true.
Proof.
  destruct a, b, c; simpl; try done;
    try apply str_leb_trans; try apply float_leb_trans.
  rewrite !bool_decide_eq_true; lia.
Qed.

Lemma cell_leb_total (a b : option value) : cell_leb a b = true ∨ cell_leb b a = true.
Proof. destruct a, b; simpl; auto. apply value_leb_total. Qed.

Lemma cell_leb_trans (a b c : option value) :
  cell_leb a b = true → cell_leb b c = true → cell_leb a c = true.
Proof. destruct a, b, c; simpl; try done. apply value_leb_trans. Qed.

Global Instance rows_le_total k1 k2 : Total (rows_le k1 k2).
Proof.
  intros i j. unfold rows_le, rows_leb.
  destruct (cell_leb_total (take k1 (Some i)) (take k1 (Some j))) as [H|H];
    rewrite H.
  - destruct (cell_leb (take k1 (Some j)) (take k1 (Some i))); [|by left].
    apply cell_leb_total.
  - destruct (cell_leb (take k1 (Some i)) (take k1 (Some j))); [|by right].
    apply cell_leb_total.
Qed.

Global Instance rows_le_trans k1 k2 : Transitive (rows_le k1 k2).
Proof.
  intros i j l. unfold rows_le, rows_leb.
  destruct (cell_leb (take k1 (Some i)) (take k1 (Some j))) eqn:Eij; [|done].
  destruct (cell_leb (take k1 (Some j)) (take k1 (Some l))) eqn:Ejl;
    [|by destruct (cell_leb (take k1 (Some j)) (take k1 (Some i)))].
  rewrite (cell_leb_trans _ _ _ Eij Ejl).
  destruct (cell_leb (take k1 (Some l)) (take k1 (Some i))) eqn:Eli; [|done].
  rewrite (cell_leb_trans _ _ _ Ejl Eli), (cell_leb_trans _ _ _ Eli Eij).
  apply cell_leb_trans.
Qed.

Lemma StronglySorted_lookup {A} (R : relation A) (l : list A) (i j : nat) (x y : A) :
  StronglySorted R l → i < j → l !! i = Some x → l !! j = Some y → R x y.
Proof.
  intros Hs. revert i j. induction Hs as [|a l Hs IH Hall]; intros i j Hij Hi Hj.
  { by rewrite lookup_nil in Hi. }
  destruct j as [|j]; [lia|]. simpl in Hj. destruct i as [|i].
  - injection Hi as <-. rewrite Forall_forall in Hall.
    apply Hall. by eapply list_elem_of_lookup_2.
  - simpl in Hi. apply (IH i j); [lia|done|done].
Qed.

Lemma take_gather (s : Series) (idx : list nat) (i a : nat) :
  idx !! i = Some a →
  take ((λ i, take s (Some i)) <$> idx) (Some i) = take s (Some a).
Proof.
  intros Hi. unfold take at 1. simpl. by rewrite list_lookup_fmap, Hi.
Qed.

(** X11: the written table is sorted: its rows ascend by the accession
    column and, within an accession, by [ID], nulls first. *)
Theorem written_table_sorted (igs tsv out : DataFrame) (an : string) :
  join_and_derive igs tsv an = Ret out →
  ∃ k1 k2, column an out = Some k1 ∧ column "ID" out = Some k2 ∧
    length k2 = length k1 ∧
    ∀ i j, i < j < length k1 → rows_leb k1 k2 i j = true.
Proof.
  unfold join_and_derive.
  destruct (join_left an igs tsv) as [merged|c|e]; [|done|done].
  destruct (column "Polarity" merged) as [pol|]; [|done].
  destruct (column "Length" merged) as [len|]; [|done].
  destruct (mapM log10_cell len) as [l10|]; [|done].
  set (df := with_column "log10_length" l10 _).
  unfold sort2.
  destruct (column an df) as [c1|] eqn:E1; [|done].
  destruct (column "ID" df) as [c2|] eqn:E2; [|done].
  set (idx := merge_sort (rows_le c1 c2) (seq 0 (height df))).
  intros [= <-].
  exists ((λ i, take c1 (Some i)) <$> idx), ((λ i, take c2 (Some i)) <$> idx).
  rewrite !(column_fmap (λ s, (λ i, take s (Some i)) <$> idx)), E1, E2.
  split; [done|]. split; [done|]. rewrite !length_fmap. split; [done|].
  intros i j [Hij Hj].
  destruct (lookup_lt_is_Some_2 idx i ltac:(lia)) as [a Ha].
  destruct (lookup_lt_is_Some_2 idx j Hj) as [b Hb].
  unfold rows_leb.
  rewrite !(take_gather _ idx i a Ha), !(take_gather _ idx j b Hb).
  apply (StronglySorted_lookup (rows_le c1 c2) idx i j a b); try done.
  apply StronglySorted_merge_sort; apply _.
Qed.

Lemma written_table_sorted_witness :
  ∃ out k1 k2, join_and_derive Samples.igs Samples.tsv "AN" = Ret out ∧
    column "AN" out = Some k1 ∧ column "ID" out = Some k2 ∧
    rows_leb k1 k2 0 2 = true.
Proof.
  assert (Hj : ∃ out, join_and_derive Samples.igs Samples.tsv "AN" = Ret out)
    by (eexists; vm_compute; reflexivity).
  destruct Hj as [out Hj].
  destruct (written_table_sorted Samples.igs Samples.tsv out "AN" Hj)
    as (k1 & k2 & H1 & H2 & _ & Hs).
  exists out, k1, k2. split; [exact Hj|]. split; [exact H1|]. split; [exact H2|].
  apply Hs. revert H1. revert Hj. vm_compute. intros [= <-] [= <-]. simpl. lia.
Defined.

Lemma round53_sign (z : Z) : (round53 z ?= 0)%Z = (z ?= 0)%Z.
Proof.
  unfold round53. case_decide as Hsmall; [done|].
  set (a := Z.abs z) in *. set (e := (Z.log2 a - 52)%Z).
  assert (Ha : (2 ^ 53 ≤ a)%Z) by lia.
  assert (He : (1 ≤ e)%Z).
  { unfold e. pose proof (Z.log2_le_mono _ _ Ha) as Hl.
    rewrite Z.log2_pow2 in Hl by lia. lia. }
  assert (Hm : (0 < Z.shiftr a e)%Z).
  { rewrite Z.shiftr_div_pow2 by lia.
    apply Z.div_str_pos. split; [apply Z.pow_pos_nonneg; lia|].
    destruct (Z.log2_spec a) as [Hlo _]; [lia|].
    etrans; [|exact Hlo]. apply Z.pow_le_mono_r; lia. }
  set (m := Z.shiftr a e) in *.
  assert (Hs : ∀ m', (0 < m')%Z → (0 < Z.shiftl m' e)%Z).
  { intros m' Hm'. rewrite Z.shiftl_mul_pow2 by lia.
    apply Z.mul_pos_pos; [done|]. apply Z.pow_pos_nonneg; lia. }
  assert (Hpos : (0 <
    Z.shiftl (if decide (Z.shiftl 1 (e - 1) < Z.land a (Z.ones e)
                         ∨ Z.land a (Z.ones e) = Z.shiftl 1 (e - 1)
                           ∧ Z.odd m = true)%Z
              then (m + 1)%Z else m) e)%Z).
  { case_decide; apply Hs; lia. }
  destruct (Z.compare_spec z 0) as [->|Hz|Hz].
  - done.
  - rewrite Z.sgn_neg by done. apply Z.compare_lt_iff. lia.
  - rewrite Z.sgn_pos by done. apply Z.compare_gt_iff. lia.
Qed.

Lemma Qccompare_of_Z (a b : Z) : Qcanon.Qccompare (of_Z a) (of_Z b) = (a ?= b)%Z.
Proof.
  unfold Qcanon.Qccompare, of_Z. simpl.
  rewrite <- Qreduction.Qred_compare. unfold QArith_base.Qcompare. simpl.
  by rewrite !Z.mul_1_r.
Qed.

(** The logarithm of an integer cell: [NaN] below zero, minus infinity at
    zero, a finite float above. *)
Lemma log10_to_float (z : Z) :
  log10 (to_float z)
  = if decide (z < 0)%Z then NaN
    else if decide (z = 0)%Z then Inf true else Fin 1 (of_Z (round53 z)).
Proof.
  unfold to_float, log10. simpl tower.
  rewrite Qccompare_of_Z, round53_sign.
  destruct (Z.compare_spec z 0) as [->|Hz|Hz]; repeat case_decide; done || lia.
Qed.

(** X12: in the written table [log10_length] is, row by row, the base-10
    logarithm of [Length]: null where [Length] is null, the logarithm of a
    float, and for an integer the logarithm of the float it casts to, which
    is [NaN] below zero, minus infinity at zero and finite above. *)
Theorem log10_length_column (igs tsv out : DataFrame) (an : string) :
  join_and_derive igs tsv an = Ret out →
  ∃ len l10, column "Length" out = Some len ∧
    column "log10_length" out = Some l10 ∧
    length l10 = length len ∧
    (∀ i, len !! i = Some None → l10 !! i = Some None) ∧
    (∀ i x, len !! i = Some (Some (VFloat x)) →
       l10 !! i = Some (Some (VFloat (log10 x)))) ∧
    (∀ i z, len !! i = Some (Some (VInt z)) →
       l10 !! i
       = Some (Some (VFloat
                       (if decide (z < 0)%Z then NaN
                        else if decide (z = 0)%Z then Inf true
                        else Fin 1 (of_Z (round53 z)))))).
Proof.
  intros (merged & pol & len & l10 & idx & Hj & _ & Hlen & Hl10 & _ & ->)%join_and_derive_Ret.
  exists ((λ i, take len (Some i)) <$> idx), ((λ i, take l10 (Some i)) <$> idx).
  rewrite !(column_fmap (λ s, (λ i, take s (Some i)) <$> idx)).
  rewrite column_with_column_eq.
  rewrite !column_with_column_ne by done. rewrite Hlen. simpl.
  apply mapM_Some in Hl10.
  assert (Hrow : ∀ i, log10_cell (take len (Some i)) = Some (take l10 (Some i))).
  { intros i. unfold take. simpl.
    destruct (len !! i) as [c|] eqn:Ec.
    - destruct (Forall2_lookup_l _ _ _ _ _ Hl10 Ec) as (y & Hy & Hc).
      rewrite Hy. simpl. done.
    - apply lookup_ge_None_1 in Ec.
      rewrite (Forall2_length _ _ _ Hl10) in Ec.
      by rewrite (lookup_ge_None_2 l10 i Ec). }
  assert (Hcell : ∀ p c, ((λ i, take len (Some i)) <$> idx) !! p = Some c →
            ∃ l, log10_cell c = Some l ∧
                 ((λ i, take l10 (Some i)) <$> idx) !! p = Some l).
  { intros p c. rewrite !list_lookup_fmap.
    destruct (idx !! p) as [i|]; [|done]. simpl. intros [= <-].
    exists (take l10 (Some i)). split; [apply Hrow|done]. }
  split; [done|]. split; [done|]. split; [by rewrite !length_fmap|].
  split; [|split].
  - intros p (l & Hl & Hp)%Hcell. simpl in Hl. injection Hl as <-. exact Hp.
  - intros p x (l & Hl & Hp)%Hcell. simpl in Hl. injection Hl as <-. exact Hp.
  - intros p z (l & Hl & Hp)%Hcell. simpl in Hl. injection Hl as <-.
    rewrite <- log10_to_float. exact Hp.
Qed.

Lemma log10_length_column_witness :
  ∃ out len l10, join_and_derive Samples.igs Samples.tsv "AN" = Ret out ∧
    column "Length" out = Some len ∧
    column "log10_length" out = Some l10 ∧
    len !! 0 = Some (Some (VInt 10)) ∧
    l10 !! 0 = Some (Some (VFloat (Fin 1 (of_Z 10)))).
Proof.
  assert (Hj : ∃ out, join_and_derive Samples.igs Samples.tsv "AN" = Ret out)
    by (eexists; vm_compute; reflexivity).
  destruct Hj as [out Hj].
  destruct (log10_length_column Samples.igs Samples.tsv out "AN" Hj)
    as (len & l10 & H1 & H2 & _ & _ & _ & H3).
  assert (H0 : len !! 0 = Some (Some (VInt 10))).
  { revert H1. revert Hj. vm_compute. by intros [= <-] [= <-]. }
  exists out, len, l10. split; [exact Hj|]. split; [exact H1|].
  split; [exact H2|]. split; [exact H0|]. exact (H3 0 10%Z H0).
Defined.

End TableProperties.

(** ** The patterns of the extractor *)

Section PatternProperties.
Import Py SummaryIgs.

Local Open Scope char_scope.

Lemma _RE_ID_step (c : ascii) (r : string) :
  (∃ g, String c r = String "I" (String "D" (String "=" g)) ∧
        _RE_ID (String c r)
        = match until_semicolon g with
          | EmptyString => _RE_ID r
          | m => Some m
          end)
  ∨ ((∀ g, String c r ≠ String "I" (String "D" (String "=" g))) ∧
     _RE_ID (String c r) = _RE_ID r).
Proof.
  destruct c as [[] [] [] [] [] [] [] []];
    try (right; split; [by intros g [=]|reflexivity]).
  destruct r as [|c2 r]; [right; split; [by intros g [=]|reflexivity]|].
  destruct c2 as [[] [] [] [] [] [] [] []];
    try (right; split; [by intros g [=]|reflexivity]).
  destruct r as [|c3 r]; [right; split; [by intros g [=]|reflexivity]|].
  destruct c3 as [[] [] [] [] [] [] [] []];
    try (right; split; [by intros g [=]|reflexivity]).
  left. by exists r.
Qed.

Lemma until_semicolon_split (g : string) :
  ∃ post, g = (until_semicolon g +:+ post)%string ∧
          (post = EmptyString ∨ ∃ t, post = String ";" t) ∧
          ∀ c, In c (list_ascii_of_string (until_semicolon g)) → c ≠ ";".
Proof.
  induction g as [|a g (post & Hg & Hpost & Hno)]; simpl.
  - exists EmptyString. split; [done|]. split; [by left|]. by intros c [].
  - destruct (Ascii.eqb_spec a ";") as [->|Ha].
    + exists (String ";" g). split; [done|]. split; [right; by exists g|].
      by intros c [].
    + exists post.
      split; [change (String a g = String a (until_semicolon g +:+ post)%string);
              by rewrite <- Hg|].
      split; [done|]. simpl.
      intros c [<-|Hc]; [done|by apply Hno].
Qed.

Lemma until_semicolon_clean (id rest : string) :
  (∀ c, In c (list_ascii_of_string id) → c ≠ ";") →
  until_semicolon id = id ∧
  until_semicolon (id +:+ String ";" rest) = id.
Proof.
  induction id as [|a id IH]; intros Hno; simpl.
  - done.
  - destruct (Ascii.eqb_spec a ";") as [->|Ha].
    + exfalso. by apply (Hno ";"); [left|].
    + destruct IH as [IH1 IH2]; [intros c Hc; apply Hno; by right|].
      by rewrite IH1, IH2.
Qed.

(** X13: an attribute field that starts with [ID=] gives its identifier
    back, whatever follows the semicolon that ends it, provided the
    identifier is not empty and has no semicolon. *)
Theorem id_round_trip (id rest : string) :
  id ≠ EmptyString →
  (∀ c, In c (list_ascii_of_string id) → c ≠ ";") →
  _RE_ID ("ID=" +:+ id +:+ String ";" rest) = Some id ∧
  _RE_ID ("ID=" +:+ id) = Some id.
Proof.
  intros Hne Hno. destruct (until_semicolon_clean id rest Hno) as [H1 H2].
  change (_RE_ID (String "I" (String "D" (String "=" (id +:+ String ";" rest)%string)))
          = Some id ∧
          _RE_ID (String "I" (String "D" (String "=" id))) = Some id).
  cbn [_RE_ID]. rewrite H1, H2. by destruct id.
Qed.

Lemma id_round_trip_witness :
  _RE_ID "ID=igr_1;name_up=rps12;source_up=gene|+|" = Some "igr_1"%string.
Proof.
  refine (proj1 (id_round_trip "igr_1" "name_up=rps12;source_up=gene|+|" _ _)).
  - discriminate.
  - simpl. intros c H. intuition (subst; discriminate).
Defined.

(** X14: the pattern finds an identifier exactly when the field has [ID=]
    followed by a character other than a semicolon; what it returns is not
    empty, has no semicolon, stands in the field right after an [ID=] and runs
    to the next semicolon or to the end. *)
Theorem id_pattern_sound_complete (s : string) :
  (is_Some (_RE_ID s) ↔
   ∃ pre c t, s = (pre +:+ "ID=" +:+ String c t)%string ∧ c ≠ ";") ∧
  ∀ m, _RE_ID s = Some m →
    m ≠ EmptyString ∧
    (∀ c, In c (list_ascii_of_string m) → c ≠ ";") ∧
    ∃ pre post, s = (pre +:+ "ID=" +:+ m +:+ post)%string ∧
                (post = EmptyString ∨ ∃ t, post = String ";" t).
Proof.
  split; [split|].
  - induction s as [|a r IH]; [by intros [? [=]]|].
    intros Hs. destruct (_RE_ID_step a r) as [(g & Hg & Heq)|[_ Heq]].
    + destruct (until_semicolon g) as [|b u] eqn:Eu.
      * rewrite Heq in Hs. destruct (IH Hs) as (pre & c & t & -> & Hc).
        by exists (String a pre), c, t.
      * destruct g as [|c t]; [done|]. cbn [until_semicolon] in Eu.
        destruct (Ascii.eqb_spec c ";") as [->|Hc]; [done|].
        exists EmptyString, c, t. by rewrite Hg.
    + rewrite Heq in Hs. destruct (IH Hs) as (pre & c & t & -> & Hc).
      by exists (String a pre), c, t.
  - intros (pre & c & t & -> & Hc). induction pre as [|a pre IH].
    + change (is_Some (_RE_ID (String "I" (String "D" (String "=" (String c t)))))).
      cbn [_RE_ID until_semicolon].
      destruct (Ascii.eqb_spec c ";") as [->|_]; [done|]. by eexists.
    + change (is_Some (_RE_ID (String a (pre +:+ "ID=" +:+ String c t)%string))).
      destruct (_RE_ID_step a (pre +:+ "ID=" +:+ String c t))
        as [(g & Hg & Heq)|[_ Heq]]; rewrite Heq; [|exact IH].
      destruct (until_semicolon g); [exact IH|by eexists].
  - induction s as [|a r IH]; [done|]. intros m Hm.
    destruct (_RE_ID_step a r) as [(g & Hg & Heq)|[_ Heq]]; rewrite Heq in Hm.
    + destruct (until_semicolon g) as [|b u] eqn:Eu.
      * destruct (IH m Hm) as (Hne & Hno & pre & post & -> & Hpost).
        split; [done|]. split; [done|]. by exists (String a pre), post.
      * injection Hm as <-.
        destruct (until_semicolon_split g) as (post & Hgp & Hpost & Hno).
        rewrite Eu in Hgp, Hno.
        split; [done|]. split; [done|].
        exists EmptyString, post. split; [|done]. rewrite Hg.
        change (String "I" (String "D" (String "=" g))
                = String "I" (String "D" (String "=" (String b u +:+ post)%string))).
        by rewrite <- Hgp.
    + destruct (IH m Hm) as (Hne & Hno & pre & post & -> & Hpost).
      split; [done|]. split; [done|]. by exists (String a pre), post.
Qed.

Lemma _RE_strand_step (c : ascii) (r : string) :
  (∃ x t, String c r = String "|" (String x (String "|" t)) ∧
          (x = "+" ∨ x = "-") ∧
          _RE_strand (String c r) = Some (String x EmptyString))
  ∨ ((∀ x t, x = "+" ∨ x = "-" →
             String c r ≠ String "|" (String x (String "|" t))) ∧
     _RE_strand (String c r) = _RE_strand r).
Proof.
  destruct c as [[] [] [] [] [] [] [] []];
    try (right; split; [by intros x t _ [=]|reflexivity]).
  destruct r as [|x r]; [right; split; [by intros x t _ [=]|reflexivity]|].
  destruct r as [|b t]; [right; split; [by intros x' t _ [=]|reflexivity]|].
  destruct b as [[] [] [] [] [] [] [] []];
    try (right; split; [by intros x' t' _ [=]|reflexivity]).
  simpl. destruct (Ascii.eqb_spec x "+") as [->|Hp].
  { left. exists "+", t. split; [done|]. split; [by left|done]. }
  destruct (Ascii.eqb_spec x "-") as [->|Hm].
  { left. exists "-", t. split; [done|]. split; [by right|done]. }
  right. split; [|done]. intros x' t' [->| ->] [=]; congruence.
Qed.

(** X15: the strand pattern finds a strand exactly when the descriptor has
    [|+|] or [|-|] in it, and the strand it returns is the sign between two
    bars at some place of the descriptor; without such a mark the strand of a
    record defaults to "+". *)
Theorem strand_pattern_sound_complete (s : string) :
  (is_Some (_RE_strand s) ↔
   ∃ pre x post, s = (pre +:+ String "|" (String x (String "|" post)))%string ∧
                 (x = "+" ∨ x = "-")) ∧
  (∀ m, _RE_strand s = Some m →
     ∃ pre x post, m = String x EmptyString ∧ (x = "+" ∨ x = "-") ∧
                   s = (pre +:+ String "|" (String x (String "|" post)))%string) ∧
  (_RE_strand s = None → strand (Some s) = "+"%string).
Proof.
  split; [split|split].
  - induction s as [|a r IH]; [by intros [? [=]]|].
    intros Hs. destruct (_RE_strand_step a r) as [(x & t & Hx & Hpm & _)|[_ Heq]].
    + exists EmptyString, x, t. by rewrite Hx.
    + rewrite Heq in Hs. destruct (IH Hs) as (pre & x & post & -> & Hpm).
      by exists (String a pre), x, post.
  - intros (pre & x & post & -> & Hpm). induction pre as [|a pre IH].
    + change (is_Some (_RE_strand (String "|" (String x (String "|" post))))).
      destruct (_RE_strand_step "|" (String x (String "|" post)))
        as [(x' & t & _ & _ & ->)|[Hno _]]; [by eexists|].
      by destruct (Hno x post Hpm).
    + change (is_Some (_RE_strand
                (String a (pre +:+ String "|" (String x (String "|" post)))%string))).
      destruct (_RE_strand_step a (pre +:+ String "|" (String x (String "|" post))))
        as [(x' & t & _ & _ & ->)|[_ ->]]; [by eexists|exact IH].
  - induction s as [|a r IH]; [done|]. intros m Hm.
    destruct (_RE_strand_step a r) as [(x & t & Hx & Hpm & Heq)|[_ Heq]];
      rewrite Heq in Hm.
    + injection Hm as <-. exists EmptyString, x, t. by rewrite Hx.
    + destruct (IH m Hm) as (pre & x & post & -> & Hpm & ->).
      by exists (String a pre), x, post.
  - intros Hn. unfold strand. simpl. by rewrite Hn.
Qed.

End PatternProperties.

(** ** The aggregation and the command lines *)

Section AggregationProperties.
Import Py Polars Ete Brms SummaryIgs Cli.

Lemma igs_multiple_Ret (re : TigreClean) (gff : string → list GffRow)
    (ans : list string) (w : Z) (e : Executor) (table : list IgsRecord) :
  igs_multiple re gff ans w e = Ret table →
  (0 < w)%Z ∧ table ≠ [] ∧
  table ≡ₚ mjoin ((λ an, summary_igs re an (gff an)) <$> ans).
Proof.
  unfold igs_multiple. case_bool_decide as Hw; [done|].
  set (tasks := (λ an, summary_igs re an (gff an)) <$> ans).
  destruct (mjoin (as_completed e tasks)) as [|x l] eqn:E; [done|].
  intros [= <-]. split; [lia|]. split.
  - intros Hnil. apply (f_equal length) in Hnil.
    rewrite (Permutation_length (merge_sort_Permutation _ _)) in Hnil. done.
  - by rewrite merge_sort_Permutation, <- E, as_completed_perm.
Qed.

(** X16: the table [igs_multiple] writes has one record per annotation line
    of every listed sample, each carrying the accession of its sample and
    the record that [summary_igs] makes of the line; nothing is lost and
    nothing is added. *)
Theorem aggregation_rows (re : TigreClean) (gff : string → list GffRow)
    (ans : list string) (w : Z) (e : Executor) (table : list IgsRecord) :
  igs_multiple re gff ans w e = Ret table →
  length table = sum_list ((λ an, length (gff an)) <$> ans) ∧
  ∀ r, r ∈ table ↔
       ∃ an row, an ∈ ans ∧ row ∈ gff an ∧ r = summary_row re an row ∧ AN r = an.
Proof.
  intros (_ & _ & Hp)%igs_multiple_Ret. split.
  - rewrite (Permutation_length Hp), length_join, <- list_fmap_compose.
    f_equal. apply list_fmap_ext. intros _ an _. simpl.
    unfold summary_igs. by rewrite length_fmap.
  - intros r. rewrite Hp, list_elem_of_join. split.
    + intros (l & Hr & (an & -> & Han)%list_elem_of_fmap).
      apply list_elem_of_fmap in Hr as (row & -> & Hrow).
      by exists an, row.
    + intros (an & row & Han & Hrow & -> & _).
      exists (summary_igs re an (gff an)). split.
      * by apply list_elem_of_fmap_2.
      * apply list_elem_of_fmap. by exists an.
Qed.

Lemma aggregation_rows_witness :
  ∃ table,
    igs_multiple (Samples.tigre_fixed None None) Samples.gff_files
      ["NC_1"; "NC_2"] 2 Samples.reversed = Ret table ∧
    length table = 6.
Proof.
  assert (H : ∃ table,
    igs_multiple (Samples.tigre_fixed None None) Samples.gff_files
      ["NC_1"; "NC_2"] 2 Samples.reversed = Ret table)
    by (eexists; vm_compute; reflexivity).
  destruct H as [table H]. exists table. split; [exact H|].
  exact (proj1 (aggregation_rows _ _ _ _ _ _ H)).
Defined.

(** X17: [igs_multiple] writes a table exactly when it has at least one
    worker and at least one listed sample has an annotation line; with no
    worker it raises [ValueError], with no line at all [KeyError]. It never
    writes an empty table. *)
Theorem aggregation_outcome (re : TigreClean) (gff : string → list GffRow)
    (ans : list string) (w : Z) (e : Executor) :
  ((∃ table, igs_multiple re gff ans w e = Ret table) ↔
   (0 < w)%Z ∧ ∃ an, an ∈ ans ∧ gff an ≠ []) ∧
  ((w ≤ 0)%Z ↔ igs_multiple re gff ans w e = Raise "ValueError") ∧
  ((0 < w)%Z ∧ (∀ an, an ∈ ans → gff an = []) ↔
   igs_multiple re gff ans w e = Raise "KeyError") ∧
  igs_multiple re gff ans w e ≠ Ret [].
Proof.
  set (tasks := (λ an, summary_igs re an (gff an)) <$> ans).
  assert (Hnil : mjoin (as_completed e tasks) = [] ↔ ∀ an, an ∈ ans → gff an = []).
  { split.
    - intros H an Han.
      assert (Hp : mjoin tasks = []).
      { apply Permutation_nil_r. rewrite <- H. by rewrite as_completed_perm. }
      apply join_nil_1 in Hp. rewrite Forall_forall in Hp.
      specialize (Hp (summary_igs re an (gff an))
                    (list_elem_of_fmap_2 (λ an, summary_igs re an (gff an)) _ _ Han)).
      unfold summary_igs in Hp. by apply fmap_nil_inv in Hp.
    - intros H. apply Permutation_nil_r. rewrite as_completed_perm.
      apply Permutation_nil_r, join_nil_2, Forall_forall.
      intros l (an & -> & Han)%list_elem_of_fmap.
      unfold summary_igs. by rewrite (H an Han). }
  assert (Hsome : (∃ an, an ∈ ans ∧ gff an ≠ []) ↔ mjoin (as_completed e tasks) ≠ []).
  { split.
    - intros (an & Han & Hne) H. exact (Hne (proj1 Hnil H an Han)).
    - intros H. destruct (mjoin (as_completed e tasks)) as [|x l] eqn:E; [done|].
      assert (Hx : x ∈ mjoin tasks).
      { rewrite <- (as_completed_perm e tasks), E. by left. }
      apply list_elem_of_join in Hx as (l' & Hx & (an & -> & Han)%list_elem_of_fmap).
      exists an. split; [done|]. intros Hg. unfold summary_igs in Hx.
      rewrite Hg in Hx. by apply elem_of_nil in Hx. }
  unfold igs_multiple. fold tasks.
  case_bool_decide as Hw.
  - split; [split; [by intros [? [=]]|intros [? _]; lia]|].
    split; [done|]. split; [|done]. split; [intros [? _]; lia|done].
  - destruct (mjoin (as_completed e tasks)) as [|x l] eqn:E.
    + split; [split; [by intros [? [=]]|]|].
      { intros [_ H]. by apply Hsome in H. }
      split; [split; [done|done]|]. split; [|done].
      split; [done|]. intros _. split; [lia|]. by apply Hnil.
    + split; [split; [intros _; split; [lia|by apply Hsome]|by eexists]|].
      split; [split; [done|done]|]. split.
      * split; [|done]. intros [_ H]. apply Hnil in H. done.
      * intros [= H]. apply (f_equal length) in H.
        by rewrite (Permutation_length (merge_sort_Permutation _ _)) in H.
Qed.

(** X18: [main] of [brms.py] runs nothing when an input file is absent or
    when the output folder exists and [--overwrite] is not given: it logs
    one error and exits with status 1, with no call of the gateway and
    nothing written. Otherwise it runs [run_single] on the two tables, after
    a warning when an existing folder is overwritten. *)
Theorem brms_main_preflight (env : Env) (fs : FileSystem) (args : BrmsArgs) :
  if negb (is_file fs (tsv args)) || negb (is_file fs (igs args))
     || (exists_ fs (output args) && negb (overwrite args))
  then ∃ msg, brms_main env fs args [] = ([Log ERROR msg ∅], SysExit 1)
  else brms_main env fs args []
       = run_single env (read_csv fs (tsv args)) (read_csv fs (igs args))
           (an_column args) (update_taxa args)
           (if exists_ fs (output args)
            then [Log WARNING "Output folder exists, overwriting as requested." ∅]
            else []).
Proof.
  unfold brms_main.
  destruct (is_file fs (tsv args)); simpl; [|by eexists].
  destruct (is_file fs (igs args)); simpl; [|by eexists].
  destruct (exists_ fs (output args)); simpl; [|done].
  destruct (overwrite args); simpl; [done|by eexists].
Qed.

(** X19: when [main] of [summary_igs.py] writes a table, the output file
    was absent or [--overwrite] was given, and the table is not empty and
    sorted by (AN, ID); an existing output without [--overwrite] always
    raises [FileExistsError]. *)
Theorem igs_main_guard (re : TigreClean) (fs : FileSystem) (e : Executor)
    (args : IgsArgs) :
  (∀ table, igs_main re fs e args = Ret table →
     (exists_ fs (igs_output args) = false ∨ igs_overwrite args = true) ∧
     table ≠ [] ∧ Sorted record_le table) ∧
  (exists_ fs (igs_output args) = true ∧ igs_overwrite args = false ↔
   igs_main re fs e args = Raise "FileExistsError").
Proof.
  unfold igs_main. split.
  - intros table.
    destruct (exists_ fs (igs_output args)), (igs_overwrite args); simpl;
      try done; intros H;
      (split; [auto|]);
      pose proof (igs_multiple_Ret _ _ _ _ _ _ H) as (_ & Hne & _);
      (split; [done|]);
      revert H; unfold igs_multiple; case_bool_decide; try done;
      destruct (mjoin _); try done; intros [= <-];
      apply Sorted_merge_sort; apply _.
  - destruct (exists_ fs (igs_output args)), (igs_overwrite args); simpl;
      (split; [try done; by intros [? ?]|]); try done;
      unfold igs_multiple; case_bool_decide; try done;
      destruct (mjoin _); done.
Qed.

End AggregationProperties.
